(** * Skribble: the checkpointed undo/redo buffer [sk::CachedResource]

    A shallow embedding of [src/cached_resource.hpp] and the properties of
    its undo/redo state machine.

    Modelling conventions.
    - [std::deque<T>] is a [list T]; [begin()] is position [0] and [end()]
      is position [length l].
    - A deque iterator is its offset from [begin()], a [nat].  Iterator
      arithmetic ([++], [--], [+ 1], [std::advance]) is arithmetic on the
      offset and is never checked, exactly as in the source; what can go
      wrong is a dereference (or a [pop_back]) where no element exists, and
      that is the outcome [Undefined].
    - The two limits of a newly constructed object are value-initialised:
      singular iterators, which belong to no deque, neither [begin()] nor
      [end()].  Only [emplaceBack] assigns [m_dataLimit], and it leaves
      [m_data] non-empty; only [emplaceBack] removes elements; only [undo]
      enters undo mode.  So [m_dataLimit] is singular exactly while [m_data]
      is empty outside undo mode ([dataLimit_singular]; among the reachable
      objects that is the new one alone, lemma [reachable_singular]).  The
      offset stored then is a placeholder, and a member that reads or moves
      the limit ([std::distance], [!=], [--], [- 1]) is [Undefined]: [undo],
      both forms of [reduceTo], [getLast] and [clearUndo]; [redo],
      [getLastCache] and [emplaceBack] do not read it on a new object.
      [m_cacheLimit] is read and moved only while [m_cache] is non-empty,
      and [emplaceBack] assigns it along with every checkpoint it stores:
      its offset while [m_cache] is empty is a placeholder that no member
      reads.
    - The combiner is a pointer to a function taking [T&, T&] and returning
      [void]: both arguments are mutable references, so a call returns the
      new value of both.
    - Container sizes, and their products with the gap, stay below [2^31]:
      the [static_cast<int>] of a distance and the [int] arithmetic on it
      are exact. *)

From stdpp Require Import list.

(** ** Outcome of a call *)

(** [Done a]: the call returns [a].  [Raised]: the call reports a failure to
    its caller (an exception or an explicit fault).  [Undefined]: the call
    has undefined behaviour, nothing is checked and nothing is reported. *)
Inductive outcome (A : Type) : Type :=
  | Done (a : A)
  | Raised
  | Undefined.
Arguments Done {A} a.
Arguments Raised {A}.
Arguments Undefined {A}.

#[global] Instance outcome_ret : MRet outcome := fun A a => Done a.
#[global] Instance outcome_bind : MBind outcome := fun A B k m =>
  match m with
  | Done a => k a
  | Raised => Raised
  | Undefined => Undefined
  end.

Definition is_Done {A : Type} (m : outcome A) : Prop := exists a, m = Done a.

(** ** Loops over a deque *)

Section Loops.
Context {T : Type}.

(** [m_data.pop_back()] on a non-empty deque. *)
Definition pop_back (l : list T) : list T := take (length l - 1) l.

(** [while(limit != l.end()) { l.pop_back(); }].  Every iteration removes
    one element, so [length l] iterations of fuel are enough; popping an
    empty deque is undefined. *)
Fixpoint pop_back_loop (fuel limit : nat) (l : list T) : outcome (list T) :=
  if decide (limit = length l) then Done l
  else match fuel with
       | 0 => Undefined
       | S fuel' =>
           match l with
           | [] => Undefined
           | _ :: _ => pop_back_loop fuel' limit (pop_back l)
           end
       end.

Definition pop_back_until (limit : nat) (l : list T) : outcome (list T) :=
  pop_back_loop (length l) limit l.

(** [for(auto it = first; it != last; ++it) { f(acc, *it); }] over the
    deque [l].  [f] receives the element by reference and may change it.
    Every iteration dereferences a distinct position of [l], so
    [length l] iterations of fuel are enough; dereferencing a position
    outside [l] is undefined. *)
Fixpoint for_loop {A : Type} (fuel : nat) (f : A -> T -> A * T)
    (acc : A) (it last : nat) (l : list T) : outcome (A * list T) :=
  if decide (it = last) then Done (acc, l)
  else match l !! it with
       | None => Undefined
       | Some x =>
           match fuel with
           | 0 => Undefined
           | S fuel' =>
               let '(acc', x') := f acc x in
               for_loop fuel' f acc' (S it) last (<[it := x']> l)
           end
       end.

Definition for_range {A : Type} (f : A -> T -> A * T)
    (acc : A) (first last : nat) (l : list T) : outcome (A * list T) :=
  for_loop (length l) f acc first last l.

(** What such a loop computes over exactly the elements [l]: the final
    accumulator and the elements as the calls left them. *)
Fixpoint fold_elems {A : Type} (f : A -> T -> A * T) (acc : A)
    (l : list T) : A * list T :=
  match l with
  | [] => (acc, [])
  | x :: l' =>
      let '(acc1, x') := f acc x in
      let '(acc2, l'') := fold_elems f acc1 l' in
      (acc2, x' :: l'')
  end.
End Loops.

(** ** The class [CachedResource<T, Traits>] *)

Section CachedResource.
Context {T : Type}.

(** [Traits::cacheGap]; the class asserts [m_cacheGap > 0] statically. *)
Variable m_cacheGap : nat.

(** [Function], a pointer to a [void] function of [T&, T&]: the pair is
    the value of the first and of the second argument after the call. *)
Definition Function : Type := T -> T -> T * T.

Record CachedResource : Type := MkCachedResource {
  m_data : list T;
  m_cache : list T;
  m_dataLimit : nat;
  m_cacheLimit : nat;
  m_underUndo : bool;
  m_function : Function
}.

(** Assignment to one member. *)
Definition set_data (data : list T) (s : CachedResource) : CachedResource :=
  {| m_data := data; m_cache := m_cache s; m_dataLimit := m_dataLimit s;
     m_cacheLimit := m_cacheLimit s; m_underUndo := m_underUndo s;
     m_function := m_function s |}.
Definition set_cache (cache : list T) (s : CachedResource)
    : CachedResource :=
  {| m_data := m_data s; m_cache := cache; m_dataLimit := m_dataLimit s;
     m_cacheLimit := m_cacheLimit s; m_underUndo := m_underUndo s;
     m_function := m_function s |}.
Definition set_dataLimit (it : nat) (s : CachedResource) : CachedResource :=
  {| m_data := m_data s; m_cache := m_cache s; m_dataLimit := it;
     m_cacheLimit := m_cacheLimit s; m_underUndo := m_underUndo s;
     m_function := m_function s |}.
Definition set_cacheLimit (it : nat) (s : CachedResource) : CachedResource :=
  {| m_data := m_data s; m_cache := m_cache s; m_dataLimit := m_dataLimit s;
     m_cacheLimit := it; m_underUndo := m_underUndo s;
     m_function := m_function s |}.
Definition set_underUndo (b : bool) (s : CachedResource) : CachedResource :=
  {| m_data := m_data s; m_cache := m_cache s; m_dataLimit := m_dataLimit s;
     m_cacheLimit := m_cacheLimit s; m_underUndo := b;
     m_function := m_function s |}.

(** [explicit CachedResource(Function f)]: both deques empty, both limits
    value-initialised.  The two offsets are placeholders: [m_dataLimit] is
    singular ([dataLimit_singular] below), and [m_cacheLimit] is not read
    while [m_cache] is empty. *)
Definition make (f : Function) : CachedResource :=
  {| m_data := []; m_cache := []; m_dataLimit := 0; m_cacheLimit := 0;
     m_underUndo := false; m_function := f |}.

(** [m_dataLimit] is still the singular iterator of the constructor: no
    [emplaceBack] has assigned it (the history is empty) and no [undo] has
    moved it (the object is outside undo mode). *)
Definition dataLimit_singular (s : CachedResource) : bool :=
  match m_data s with
  | [] => negb (m_underUndo s)
  | _ :: _ => false
  end.

Definition getNumCaches (s : CachedResource) : nat :=
  match m_cache s with
  | [] => 0
  | _ :: _ => m_cacheLimit s
  end.

Definition noCaches (s : CachedResource) : bool :=
  bool_decide (getNumCaches s <= 0).

(** Called with [m_dataLimit] assigned: by [emplaceBack] on a non-empty
    history, and by [reduceTo] after its first read of the limit. *)
Definition getIteratorPastCache (s : CachedResource) : nat :=
  let offset := getNumCaches s * m_cacheGap in
  let max := m_dataLimit s in
  Nat.min max offset.

Definition clearUndo (s : CachedResource) : outcome CachedResource :=
  if dataLimit_singular s then Undefined else
  data ← pop_back_until (m_dataLimit s) (m_data s);
  let s := set_data data s in
  cache ← (if noCaches s then Done []
           else pop_back_until (m_cacheLimit s) (m_cache s));
  let s := set_cache cache s in
  Done (set_underUndo false s).

(** The two checkpoint branches of [emplaceBack] (the [if]/[else if]
    before the label [skip_cache]).  In both, the accumulator of the loop is
    the new last element of [m_cache], a copy; the loop runs over [m_data]
    up to [end()]. *)
Definition make_cache (s : CachedResource) : outcome CachedResource :=
  if decide (length (m_data s) = m_cacheGap) then
    match m_data s with
    | [] => Undefined
    | d0 :: _ =>
        '(c, data) ← for_range (m_function s) d0 1 (length (m_data s))
                               (m_data s);
        let s := set_data data (set_cache (m_cache s ++ [c]) s) in
        Done (set_cacheLimit (length (m_cache s)) s)
    end
  else if bool_decide (m_data s <> []
                       /\ length (m_data s) mod m_cacheGap = 0) then
    let begin := getIteratorPastCache s in
    match last (m_cache s) with
    | None => Undefined
    | Some b =>
        '(c, data) ← for_range (m_function s) b begin (length (m_data s))
                               (m_data s);
        let s := set_data data (set_cache (m_cache s ++ [c]) s) in
        Done (set_cacheLimit (length (m_cache s)) s)
    end
  else Done s.

(** The code after the label [skip_cache]. *)
Definition skip_cache (x : T) (s : CachedResource) : CachedResource :=
  let s := set_data (m_data s ++ [x]) s in
  set_dataLimit (length (m_data s)) s.

(** [emplaceBack(ts...)], with [x] the element constructed from [ts...].
    The reference it returns is to the last element of [m_data]. *)
Definition emplaceBack (x : T) (s : CachedResource)
    : outcome CachedResource :=
  if m_underUndo s then
    s1 ← clearUndo s;
    if decide (length (m_data s1) mod m_cacheGap = 0) then
      Done (skip_cache x s1)
    else
      s2 ← make_cache s1; Done (skip_cache x s2)
  else
    s2 ← make_cache s; Done (skip_cache x s2).

(** [getLastCache()]: [None] is [nullptr], [Some i] points to
    [m_cache[i]]. *)
Definition getLastCache (s : CachedResource) : outcome (option nat) :=
  if noCaches s then Done None
  else
    let i := m_cacheLimit s - 1 in
    match m_cache s !! i with
    | None => Undefined
    | Some _ => Done (Some i)
    end.

(** [*p] for a pointer [p] returned by [getLastCache()]: the position it
    points to and the element there. *)
Definition deref_cache (s : CachedResource) (p : option nat)
    : outcome (nat * T) :=
  match p with
  | None => Undefined
  | Some i =>
      match m_cache s !! i with
      | None => Undefined
      | Some c => Done (i, c)
      end
  end.

(** [reduceTo(T& value)]: the new [value] and the object afterwards.  Both
    branches compare with [m_dataLimit], or take its distance, before they
    return. *)
Definition reduceTo (value : T) (s : CachedResource)
    : outcome (T * CachedResource) :=
  if dataLimit_singular s then Undefined else
  if noCaches s then
    '(value, data) ← for_range (m_function s) value 0 (m_dataLimit s)
                               (m_data s);
    Done (value, set_data data s)
  else
    p ← getLastCache s;
    '(i, c) ← deref_cache s p;
    let '(value, c) := m_function s value c in
    let s := set_cache (<[i := c]> (m_cache s)) s in
    let begin := getIteratorPastCache s in
    '(value, data) ← for_range (m_function s) value begin (m_dataLimit s)
                               (m_data s);
    Done (value, set_data data s).

(** [reduceTo(F2 f)]: the visitor [f] is called on each element by
    reference; [A] is what the visitor captures. *)
Definition reduceToF2 {A : Type} (f : A -> T -> A * T) (a : A)
    (s : CachedResource) : outcome (A * CachedResource) :=
  if dataLimit_singular s then Undefined else
  if noCaches s then
    '(a, data) ← for_range f a 0 (m_dataLimit s) (m_data s);
    Done (a, set_data data s)
  else
    p ← getLastCache s;
    '(i, c) ← deref_cache s p;
    let '(a, c) := f a c in
    let s := set_cache (<[i := c]> (m_cache s)) s in
    let begin := getIteratorPastCache s in
    '(a, data) ← for_range f a begin (m_dataLimit s) (m_data s);
    Done (a, set_data data s).

(** [getLast()]: [*(m_dataLimit - 1)], unchecked.  While [m_data] is empty
    no position holds an element, whatever the limit is. *)
Definition getLast (s : CachedResource) : outcome T :=
  match m_dataLimit s with
  | 0 => Undefined
  | S i =>
      match m_data s !! i with
      | None => Undefined
      | Some x => Done x
      end
  end.

Definition underUndo (s : CachedResource) : bool := m_underUndo s.

(** [undo()] from the assignment of [m_underUndo] on, with [m_dataLimit] an
    iterator into [m_data]. *)
Definition undo_body (s : CachedResource) : bool * CachedResource :=
  let s := set_underUndo true s in
  let distance := m_dataLimit s in
  if decide (distance = 0) then (false, s)
  else
    let s := set_dataLimit (m_dataLimit s - 1) s in
    let onCache := bool_decide (distance mod m_cacheGap = 0) in
    if negb (noCaches s) && onCache
    then (true, set_cacheLimit (m_cacheLimit s - 1) s)
    else (true, s).

(** [undo()]: its first statement after the flag takes the distance of
    [m_dataLimit] from [begin()], which is undefined for the singular limit
    the object was constructed with. *)
Definition undo (s : CachedResource) : outcome (bool * CachedResource) :=
  if dataLimit_singular s then Undefined else Done (undo_body s).

(** [redo()] returns before it reads [m_dataLimit] outside undo mode; in
    undo mode the limit is no longer singular. *)
Definition redo (s : CachedResource) : bool * CachedResource :=
  if negb (m_underUndo s) then (false, s)
  else
    let atEnd := bool_decide (m_dataLimit s + 1 = length (m_data s)) in
    let val := negb atEnd in
    let s := if atEnd then set_underUndo false s else s in
    let s := set_dataLimit (m_dataLimit s + 1) s in
    let distance := m_dataLimit s in
    if bool_decide (m_cache s <> [] /\ distance mod m_cacheGap = 0)
    then (val, set_cacheLimit (m_cacheLimit s + 1) s)
    else (val, s).

Definition getUnderlying (s : CachedResource) : list T := m_data s.

End CachedResource.

(** ** Sequences of calls, and the vocabulary of the specification *)

Section Runs.
Context {T : Type}.
Variable m_cacheGap : nat.

Inductive call : Type :=
  | EmplaceBack (x : T)
  | Undo
  | Redo.

Definition step (c : call) (s : @CachedResource T)
    : outcome CachedResource :=
  match c with
  | EmplaceBack x => emplaceBack m_cacheGap x s
  | Undo => r ← undo m_cacheGap s; Done r.2
  | Redo => Done (redo m_cacheGap s).2
  end.

Fixpoint run (cs : list call) (s : @CachedResource T)
    : outcome CachedResource :=
  match cs with
  | [] => Done s
  | c :: cs' => s' ← step c s; run cs' s'
  end.

(** The states a buffer built with [f] can be in. *)
Definition reachable (f : Function) (s : @CachedResource T) : Prop :=
  exists cs, run cs (make f) = Done s.

(** [k] calls in a row of a member returning [bool] ([undo] or [redo]):
    the values returned, in order, and the object afterwards. *)
Fixpoint calls (m : @CachedResource T -> bool * CachedResource)
    (k : nat) (s : CachedResource) : list bool * CachedResource :=
  match k with
  | 0 => ([], s)
  | S k' =>
      let '(b, s1) := m s in
      let '(bs, s2) := calls m k' s1 in
      (b :: bs, s2)
  end.

(** [k] calls in a row of a member returning [bool] whose call can be
    undefined ([undo]). *)
Fixpoint defined_calls
    (m : @CachedResource T -> outcome (bool * CachedResource))
    (k : nat) (s : CachedResource) : outcome (list bool * CachedResource) :=
  match k with
  | 0 => Done ([], s)
  | S k' =>
      '(b, s1) ← m s;
      '(bs, s2) ← defined_calls m k' s1;
      Done (b :: bs, s2)
  end.

(** The specification's names for the two cursors.  The history cursor of
    a new buffer is [0] in the specification; the code has no position
    for it. *)
Definition historyCursor (s : @CachedResource T) : nat := m_dataLimit s.
Definition checkpointCursor (s : @CachedResource T) : nat :=
  getNumCaches s.

(** A combiner that leaves its second argument alone. *)
Definition combiner (op : T -> T -> T) : Function :=
  fun acc next => (op acc next, next).

(** Folding the history elements [[0, historyCursor)] from scratch. *)
Definition fold_history (op : T -> T -> T) (acc : T)
    (s : @CachedResource T) : T :=
  foldl op acc (take (historyCursor s) (m_data s)).

(** The combiner-fold of the elements [l] alone: seeded with the first,
    the others folded into it in order. *)
Definition checkpoint_fold (op : T -> T -> T) (l : list T) : option T :=
  match l with
  | [] => None
  | d0 :: l' => Some (foldl op d0 l')
  end.

(** The elements a [reduceTo] call hands to its visitor, in order. *)
Definition visited (s : @CachedResource T) : outcome (list T) :=
  r ← reduceToF2 m_cacheGap (fun seen x => (seen ++ [x], x)) [] s;
  Done r.1.

(** The query members, and the object after a call of one. *)
Inductive query (A : Type) : Type :=
  | GetLastCache
  | GetLast
  | UnderUndo
  | ReduceTo (value : T)
  | ReduceToF2 (f : A -> T -> A * T) (a : A).

Definition after_query {A : Type} (q : query A) (s : @CachedResource T)
    : outcome CachedResource :=
  match q with
  | GetLastCache _ => _ ← getLastCache s; Done s
  | GetLast _ => _ ← getLast s; Done s
  | UnderUndo _ => let _ := underUndo s in Done s
  | ReduceTo _ value => r ← reduceTo m_cacheGap value s; Done r.2
  | ReduceToF2 _ f a => r ← reduceToF2 m_cacheGap f a s; Done r.2
  end.

(** A callable that mutates only its first argument. *)
Definition keeps_element {A : Type} (f : A -> T -> A * T) : Prop :=
  forall a x, (f a x).2 = x.

Definition well_behaved {A : Type} (q : query A) (s : @CachedResource T)
    : Prop :=
  match q with
  | ReduceTo _ _ => keeps_element (m_function s)
  | ReduceToF2 _ f _ => keeps_element f
  | _ => True
  end.
End Runs.

Arguments GetLastCache {T A}.
Arguments GetLast {T A}.
Arguments UnderUndo {T A}.
Arguments ReduceTo {T A} value.
Arguments ReduceToF2 {T A} f a.

(** ** The configuration of [tests/cached_resource_test.cpp] *)

Definition adder : @Function Z := fun dest src => ((dest + src)%Z, src).

(** [Traits<int>::cacheGap] of the test. *)
Definition test_gap : nat := 3.

(** The layers [1, 2, ..., n] the test appends. *)
Definition layers (n : nat) : list Z := Z.of_nat <$> seq 1 n.

(** The object of the test after its ten [emplaceBack] calls. *)
Definition ten_layers : @CachedResource Z :=
  {| m_data := layers 10; m_cache := [6; 21; 45]%Z;
     m_dataLimit := 10; m_cacheLimit := 3;
     m_underUndo := false; m_function := adder |}.

(** Call sequences on which the cursors and the checkpoints part ways. *)

(** Nine layers, one [undo], two more layers. *)
Definition truncate_and_grow : list (@call Z) :=
  (EmplaceBack <$> layers 9) ++ [Undo; EmplaceBack 100%Z; EmplaceBack 200%Z].

(** [n] layers, [n] times [undo], [n] times [redo]. *)
Definition undo_all_redo_all (n : nat) : list (@call Z) :=
  (EmplaceBack <$> layers n) ++ repeat Undo n ++ repeat Redo n.

(** [n] layers, then [k] times [undo]. *)
Definition undo_some (n k : nat) : list (@call Z) :=
  (EmplaceBack <$> layers n) ++ repeat Undo k.

(** The objects these sequences end in. *)
Definition after_truncate_and_grow : @CachedResource Z :=
  {| m_data := [1; 2; 3; 4; 5; 6; 7; 8; 100; 200]%Z;
     m_cache := [6; 136]%Z;
     m_dataLimit := 10; m_cacheLimit := 2;
     m_underUndo := false; m_function := adder |}.

Definition after_undo_all_redo_all_6 : @CachedResource Z :=
  {| m_data := layers 6; m_cache := [6%Z];
     m_dataLimit := 6; m_cacheLimit := 2;
     m_underUndo := false; m_function := adder |}.

Definition after_undo_some_6_3 : @CachedResource Z :=
  {| m_data := layers 6; m_cache := [6%Z];
     m_dataLimit := 3; m_cacheLimit := 0;
     m_underUndo := true; m_function := adder |}.

Definition after_undo_some_6_1 : @CachedResource Z :=
  {| m_data := layers 6; m_cache := [6%Z];
     m_dataLimit := 5; m_cacheLimit := 0;
     m_underUndo := true; m_function := adder |}.

(** ** Invariants *)

Section Invariants.
Context {T : Type}.
Variable m_cacheGap : nat.

(** Both cursors lie inside their containers. *)
Definition in_bounds (s : @CachedResource T) : Prop :=
  historyCursor s <= length (m_data s)
  /\ checkpointCursor s <= length (m_cache s).

(** The shape of the object while only [emplaceBack] has been called: both
    limits are [end()] (on a new object, both placeholders are [0]), and a
    checkpoint exists for every full block of [m_cacheGap] elements but the
    last element's. *)
Definition at_top (s : @CachedResource T) : Prop :=
  m_dataLimit s = length (m_data s)
  /\ m_cacheLimit s = length (m_cache s)
  /\ length (m_cache s) = (length (m_data s) - 1) / m_cacheGap
  /\ m_underUndo s = false.

(** Checkpoint [i] of [c] is the combiner-fold of the first
    [(i + 1) * m_cacheGap] elements of [l]. *)
Definition checkpoints_of (op : T -> T -> T) (l c : list T) : Prop :=
  forall i, i < length c ->
    c !! i = checkpoint_fold op (take ((i + 1) * m_cacheGap) l).
End Invariants.

(** More objects of the test's configuration: eleven layers appended;
    six layers, one [undo] and one more layer; six layers and four times
    [undo]. *)
Definition eleven_layers : @CachedResource Z :=
  {| m_data := layers 11; m_cache := [6; 21; 45]%Z; m_dataLimit := 11;
     m_cacheLimit := 3; m_underUndo := false; m_function := adder |}.

Definition after_undo_append_6 : @CachedResource Z :=
  {| m_data := [1; 2; 3; 4; 5; 7]%Z; m_cache := []; m_dataLimit := 6;
     m_cacheLimit := 0; m_underUndo := false; m_function := adder |}.

Definition after_undo_some_6_4 : @CachedResource Z :=
  {| m_data := layers 6; m_cache := [6%Z];
     m_dataLimit := 2; m_cacheLimit := 0;
     m_underUndo := true; m_function := adder |}.

(** Nine layers, three times [undo], one more layer, then five times [undo]
    and five times [redo]: a buffer holding seven layers, out of undo mode;
    and the same buffer after one more [undo]. *)
Definition seven_layers_calls : list (@call Z) :=
  (EmplaceBack <$> layers 9) ++ repeat Undo 3 ++ [EmplaceBack 100%Z]
  ++ repeat Undo 5 ++ repeat Redo 5.

Definition seven_layers : @CachedResource Z :=
  {| m_data := [1; 2; 3; 4; 5; 6; 100]%Z; m_cache := [6%Z];
     m_dataLimit := 7; m_cacheLimit := 2;
     m_underUndo := false; m_function := adder |}.

Definition seven_layers_undo : @CachedResource Z :=
  {| m_data := [1; 2; 3; 4; 5; 6; 100]%Z; m_cache := [6%Z];
     m_dataLimit := 6; m_cacheLimit := 2;
     m_underUndo := true; m_function := adder |}.

(** ** Invariants of the reachable objects *)

Section ReachableInvariants.
Context {T : Type}.
Variable m_cacheGap : nat.

(** What every call sequence keeps, whatever the combiner does: outside
    undo mode [m_dataLimit] is [end()] (on a new object, the placeholder is
    [0]); on a non-empty history it is inside the history, and before
    [end()] in undo mode; there are no more checkpoints than full blocks
    before the last element; and the blocks counted by the checkpoint
    cursor lie before [m_dataLimit]. *)
Definition reach_inv (s : @CachedResource T) : Prop :=
  (m_underUndo s = false -> m_dataLimit s = length (m_data s))
  /\ (m_data s <> [] ->
      m_dataLimit s <= length (m_data s)
      /\ (m_underUndo s = true -> m_dataLimit s < length (m_data s)))
  /\ length (m_cache s) <= (length (m_data s) - 1) / m_cacheGap
  /\ getNumCaches s * m_cacheGap <= m_dataLimit s.

(** The cursors move in step: the history size is no multiple of the gap,
    a checkpoint is stored for every full block, and [m_cacheLimit] counts
    the full blocks before [m_dataLimit]. *)
Definition cursors_synced (s : @CachedResource T) : Prop :=
  length (m_data s) mod m_cacheGap <> 0
  /\ length (m_cache s) = length (m_data s) / m_cacheGap
  /\ m_cacheLimit s = m_dataLimit s / m_cacheGap
  /\ (m_underUndo s = false -> m_dataLimit s = length (m_data s))
  /\ (m_underUndo s = true -> m_dataLimit s < length (m_data s)).

(** A call that only moves the cursors. *)
Definition cursor_call (c : @call T) : Prop := c = Undo \/ c = Redo.

(** The condition under which [emplaceBack] reads [m_cache.back()] of an
    empty cache: the history is a whole number of blocks, two or more. *)
Definition back_of_empty_cache (s : @CachedResource T) : Prop :=
  m_cache s = [] /\ m_data s <> []
  /\ length (m_data s) mod m_cacheGap = 0
  /\ length (m_data s) <> m_cacheGap.
End ReachableInvariants.

(** ** The outcome monad *)

Lemma bind_Done {A B : Type} (k : A -> outcome B) (a : A) :
  Done a ≫= k = k a.
Proof. done. Qed.

Lemma bind_Done_inv {A B : Type} (k : A -> outcome B) (m : outcome A) b :
  m ≫= k = Done b -> exists a, m = Done a /\ k a = Done b.
Proof. destruct m as [a| |]; simpl; [eauto|done|done]. Qed.

(** ** The loops *)

Section LoopFacts.
Context {T : Type}.
Implicit Types l : list T.

Lemma pop_back_loop_spec fuel limit l :
  length l <= fuel ->
  pop_back_loop fuel limit l =
    if decide (limit <= length l) then Done (take limit l) else Undefined.
Proof.
  revert l. induction fuel as [|fuel IH]; intros l Hfuel; simpl.
  - destruct l; [|simpl in Hfuel; lia]. simpl.
    repeat case_decide; try lia; try done.
    by rewrite take_nil.
  - case_decide as Heq.
    + subst. rewrite decide_True by lia. by rewrite firstn_all.
    + destruct l as [|x l]; simpl in *.
      * rewrite decide_False by lia. done.
      * rewrite IH.
        2:{ unfold pop_back. rewrite length_take. simpl. lia. }
        unfold pop_back. rewrite length_take. simpl length.
        replace (S (length l) - 1) with (length l) by lia.
        rewrite Nat.min_l by lia.
        repeat case_decide; try lia; try done.
        rewrite take_take. by rewrite Nat.min_l by lia.
Qed.

Lemma pop_back_until_spec limit l :
  pop_back_until limit l =
    if decide (limit <= length l) then Done (take limit l) else Undefined.
Proof. apply pop_back_loop_spec. lia. Qed.

Lemma fold_elems_length {A : Type} (f : A -> T -> A * T) acc l :
  length (fold_elems f acc l).2 = length l.
Proof.
  revert acc. induction l as [|x l IH]; intros acc; simpl; [done|].
  destruct (f acc x) as [acc1 x']. specialize (IH acc1).
  destruct (fold_elems f acc1 l) as [acc2 l'']. simpl in *. lia.
Qed.

Lemma fold_elems_keeps {A : Type} (f : A -> T -> A * T) acc l :
  (forall a x, (f a x).2 = x) ->
  fold_elems f acc l = (foldl (fun a x => (f a x).1) acc l, l).
Proof.
  intros Hf. revert acc. induction l as [|x l IH]; intros acc; simpl; [done|].
  specialize (Hf acc x). destruct (f acc x) as [acc1 x']. simpl in *. subst.
  by rewrite IH.
Qed.

Lemma for_loop_spec {A : Type} (f : A -> T -> A * T) fuel acc it last l :
  it <= last -> last <= length l -> last - it <= fuel ->
  for_loop fuel f acc it last l =
    Done (let '(a, mid) :=
            fold_elems f acc (take (last - it) (drop it l)) in
          (a, take it l ++ mid ++ drop last l)).
Proof.
  revert acc it l.
  induction fuel as [|fuel IH]; intros acc it l Hit Hlast Hfuel.
  - assert (it = last) as -> by lia. simpl.
    rewrite decide_True by done. rewrite Nat.sub_diag. simpl.
    by rewrite take_drop.
  - simpl. case_decide as Heq.
    + subst. rewrite Nat.sub_diag. simpl. by rewrite take_drop.
    + destruct (lookup_lt_is_Some_2 l it) as [x Hx]; [lia|].
      rewrite Hx. destruct (f acc x) as [acc1 x'] eqn:Hf.
      rewrite IH; [|lia|rewrite length_insert; lia|lia].
      rewrite (drop_S l x it Hx).
      replace (last - it) with (S (last - S it)) by lia.
      simpl. rewrite Hf.
      rewrite drop_insert_lt by lia.
      rewrite (drop_insert_lt _ last) by lia.
      destruct (fold_elems f acc1 _) as [acc2 mid].
      f_equal. f_equal.
      rewrite (take_S_r (<[it:=x']> l) it x').
      2:{ apply list_lookup_insert_eq. apply lookup_lt_Some in Hx. lia. }
      rewrite take_insert_ge by lia.
      by rewrite <- app_assoc.
Qed.

Lemma for_range_spec {A : Type} (f : A -> T -> A * T) acc first last l :
  first <= last -> last <= length l ->
  for_range f acc first last l =
    Done (let '(a, mid) :=
            fold_elems f acc (take (last - first) (drop first l)) in
          (a, take first l ++ mid ++ drop last l)).
Proof. intros. apply for_loop_spec; lia. Qed.

Lemma for_range_Done {A : Type} (f : A -> T -> A * T) acc first last l :
  first <= last -> last <= length l ->
  exists a l', for_range f acc first last l = Done (a, l')
               /\ length l' = length l.
Proof.
  intros H1 H2. rewrite for_range_spec by done.
  pose proof (fold_elems_length f acc (take (last - first) (drop first l)))
    as Hlen.
  destruct (fold_elems f acc _) as [a mid]. simpl in Hlen.
  exists a, (take first l ++ mid ++ drop last l). split; [done|].
  rewrite !length_app, Hlen, !length_take, !length_drop. lia.
Qed.

Lemma sublist_split first last l :
  first <= last ->
  take first l ++ take (last - first) (drop first l) ++ drop last l = l.
Proof.
  intros H. rewrite <- (take_drop first l) at 4. f_equal.
  rewrite <- (take_drop (last - first) (drop first l)) at 2. f_equal.
  rewrite drop_drop. f_equal. lia.
Qed.

Lemma for_range_keeps {A : Type} (f : A -> T -> A * T) acc first last l :
  (forall a x, (f a x).2 = x) ->
  first <= last -> last <= length l ->
  for_range f acc first last l =
    Done (foldl (fun a x => (f a x).1) acc
                (take (last - first) (drop first l)), l).
Proof.
  intros Hf H1 H2. rewrite for_range_spec by done.
  rewrite fold_elems_keeps by done. by rewrite sublist_split.
Qed.
End LoopFacts.

(** ** Arithmetic of block boundaries *)

Lemma div_pred g n :
  0 < g ->
  n / g = (n - 1) / g + (if decide (0 < n /\ n mod g = 0) then 1 else 0).
Proof.
  intros Hg. destruct n as [|n].
  - rewrite decide_False by lia. simpl. by rewrite Nat.Div0.div_0_l.
  - replace (S n - 1) with n by lia.
    pose proof (Nat.div_mod_eq (S n) g) as Hn.
    pose proof (Nat.mod_upper_bound (S n) g ltac:(lia)) as Hr.
    case_decide as Hd.
    + destruct Hd as [_ Hd]. rewrite Hd in Hn.
      assert (0 < S n / g) by (destruct (S n / g); lia).
      assert (S n / g - 1 = n / g) as <-; [|lia].
      apply (Nat.div_unique n g _ (g - 1)); nia.
    + assert (S n mod g <> 0) by (intros ?; apply Hd; lia).
      rewrite Nat.add_0_r.
      apply (Nat.div_unique n g _ (S n mod g - 1)); lia.
Qed.

Lemma block_below g n i :
  0 < g -> i < (n - 1) / g -> (i + 1) * g <= n - 1.
Proof.
  intros Hg Hi.
  pose proof (Nat.div_mod_eq (n - 1) g). nia.
Qed.

(** ** Growing the history: [emplaceBack] outside undo mode *)

Section Growing.
Context {T : Type}.
Variable m_cacheGap : nat.
Hypothesis cacheGap_positive : 0 < m_cacheGap.
Implicit Types s : @CachedResource T.

Lemma run_cons (c : call) (cs : list call) s :
  run m_cacheGap (c :: cs) s =
    s1 ← step m_cacheGap c s; run m_cacheGap cs s1.
Proof. done. Qed.

Lemma run_app (cs1 cs2 : list call) s :
  run m_cacheGap (cs1 ++ cs2) s =
    s1 ← run m_cacheGap cs1 s; run m_cacheGap cs2 s1.
Proof.
  revert s. induction cs1 as [|c cs1 IH]; intros s; simpl; [done|].
  destruct (step m_cacheGap c s) as [s'| |]; simpl; [apply IH|done|done].
Qed.

Lemma make_cache_at_top s :
  at_top m_cacheGap s ->
  exists s2, make_cache m_cacheGap s = Done s2
    /\ length (m_data s2) = length (m_data s)
    /\ length (m_cache s2) = length (m_data s) / m_cacheGap
    /\ m_cacheLimit s2 = length (m_cache s2)
    /\ m_dataLimit s2 = m_dataLimit s
    /\ m_underUndo s2 = m_underUndo s
    /\ m_function s2 = m_function s.
Proof.
  destruct s as [data cache dL cL uu f]. unfold at_top. simpl.
  intros (-> & -> & Hlen & ->).
  unfold make_cache. simpl.
  destruct (decide (length data = m_cacheGap)) as [Hfull|Hfull];
    [|case_bool_decide as Hblock];
    pose proof (div_pred m_cacheGap (length data) cacheGap_positive) as Hdiv.
  - destruct data as [|d0 r]; [simpl in *; lia|].
    destruct (for_range_Done f d0 1 (length (d0 :: r)) (d0 :: r))
      as (c & data' & -> & Hdata'); [simpl; lia|done|].
    simpl. eexists. split; [done|]. simpl.
    rewrite length_app. simpl.
    rewrite decide_True in Hdiv.
    2:{ split; [simpl; lia|]. rewrite Hfull. apply Nat.Div0.mod_same. }
    change (length (d0 :: r)) with (S (length r)) in *.
    split_and!; try done; lia.
  - destruct Hblock as [Hne Hmod].
    rewrite decide_True in Hdiv.
    2:{ split; [destruct data; simpl; [done|lia]|done]. }
    destruct (last cache) as [b|] eqn:Hlast.
    2:{ apply last_None in Hlast. subst cache. simpl in *.
        pose proof (Nat.div_mod_eq (length data) m_cacheGap) as Hd.
        rewrite Hmod in Hd. destruct data; [done|]. simpl in *. nia. }
    destruct (for_range_Done f b
                (getIteratorPastCache m_cacheGap
                   (MkCachedResource data cache (length data)
                      (length cache) false f))
                (length data) data)
      as (c & data' & -> & Hdata').
    { unfold getIteratorPastCache. simpl. lia. }
    { done. }
    simpl. eexists. split; [done|]. simpl.
    rewrite length_app. simpl. split_and!; try done; lia.
  - eexists. split; [done|]. simpl.
    rewrite decide_False in Hdiv.
    2:{ intros [Hpos Hmod]. apply Hblock. split; [|done].
        destruct data; simpl in *; [lia|done]. }
    split_and!; try done; lia.
Qed.

Lemma emplaceBack_at_top s x :
  at_top m_cacheGap s ->
  exists s', emplaceBack m_cacheGap x s = Done s'
    /\ at_top m_cacheGap s'
    /\ length (m_data s') = S (length (m_data s))
    /\ last (m_data s') = Some x
    /\ m_function s' = m_function s.
Proof.
  intros Htop.
  destruct (make_cache_at_top s Htop)
    as (s2 & Hmk & Hd & Hc & HcL & HdL & Huu & Hf).
  destruct Htop as (HtdL & HtcL & Htlen & Htuu).
  unfold emplaceBack. rewrite Htuu, Hmk. simpl.
  eexists. split; [done|]. unfold at_top, skip_cache. simpl.
  rewrite length_app, last_snoc. simpl.
  replace (length (m_data s2) + 1 - 1) with (length (m_data s)) by lia.
  split_and!; try done; try lia. congruence.
Qed.

Lemma make_at_top (f : @Function T) : at_top m_cacheGap (make f).
Proof.
  unfold at_top, make. simpl. by rewrite Nat.Div0.div_0_l.
Qed.

(** Appending the layers [l] to an object in the append-only shape never
    leaves that shape, whatever the combiner does to the elements. *)
Lemma run_emplaceBack_at_top (l : list T) s :
  at_top m_cacheGap s ->
  exists s', run m_cacheGap (EmplaceBack <$> l) s = Done s'
    /\ at_top m_cacheGap s'
    /\ length (m_data s') = length (m_data s) + length l
    /\ m_function s' = m_function s.
Proof.
  revert s. induction l as [|x l IH]; intros s Htop.
  - exists s. split_and!; try done; simpl; lia.
  - destruct (emplaceBack_at_top s x Htop)
      as (s1 & Hs1 & Htop1 & Hl1 & _ & Hf1).
    rewrite fmap_cons, run_cons. unfold step. rewrite Hs1, bind_Done.
    destruct (IH s1 Htop1) as (s' & -> & Htop' & Hl' & Hf').
    exists s'. split_and!; try done; [simpl; lia|congruence].
Qed.

Lemma checkpoint_fold_app (op : T -> T -> T) (l1 l2 : list T) b :
  checkpoint_fold op l1 = Some b ->
  checkpoint_fold op (l1 ++ l2) = Some (foldl op b l2).
Proof.
  destruct l1 as [|d0 l1]; simpl; [done|].
  intros [= <-]. by rewrite foldl_app.
Qed.

Lemma for_range_combiner (op : T -> T -> T) acc first last (l : list T) :
  first <= last -> last <= length l ->
  for_range (combiner op) acc first last l =
    Done (foldl op acc (take (last - first) (drop first l)), l).
Proof. intros. by rewrite for_range_keeps. Qed.

(** With a combiner that leaves the elements alone, the checkpoint branches
    keep [m_data] and extend [m_cache] by the fold of the next block. *)
Lemma make_cache_at_top_combiner (op : T -> T -> T) s :
  at_top m_cacheGap s ->
  m_function s = combiner op ->
  checkpoints_of m_cacheGap op (m_data s) (m_cache s) ->
  exists s2, make_cache m_cacheGap s = Done s2
    /\ m_data s2 = m_data s
    /\ checkpoints_of m_cacheGap op (m_data s) (m_cache s2).
Proof.
  intros Htop Hf Hcp.
  pose proof (block_below m_cacheGap (length (m_data s))) as Hblk.
  destruct s as [data cache dL cL uu f]. unfold at_top in Htop.
  simpl in *. destruct Htop as (-> & -> & Hlen & ->). subst f.
  unfold make_cache. simpl.
  destruct (decide (length data = m_cacheGap)) as [Hfull|Hfull];
    [|case_bool_decide as Hblock];
    pose proof (div_pred m_cacheGap (length data) cacheGap_positive) as Hdiv.
  - destruct data as [|d0 r]; [simpl in *; lia|].
    rewrite for_range_combiner by (simpl; lia).
    rewrite bind_Done. eexists. split; [done|]. simpl. split; [done|].
    rewrite decide_True in Hdiv.
    2:{ split; [simpl; lia|]. rewrite Hfull. apply Nat.Div0.mod_same. }
    assert (cache = []) as ->.
    { apply length_zero_iff_nil. rewrite Hfull in Hdiv, Hlen.
      rewrite Nat.div_same in Hdiv by lia. lia. }
    intros i Hi. simpl in Hi. assert (i = 0) as -> by lia. simpl.
    rewrite Nat.add_0_r, <- Hfull. simpl.
    rewrite Nat.sub_0_r, !firstn_all. done.
  - destruct Hblock as [Hne Hmod].
    rewrite decide_True in Hdiv.
    2:{ split; [destruct data; simpl; [done|lia]|done]. }
    pose proof (Nat.div_mod_eq (length data) m_cacheGap) as Hd.
    rewrite Hmod in Hd.
    assert (0 < length cache) as Hc.
    { destruct data; [done|]. simpl in *. nia. }
    specialize (Hblk (length cache - 1) cacheGap_positive ltac:(lia)).
    replace (length cache - 1 + 1) with (length cache) in Hblk by lia.
    assert (getIteratorPastCache m_cacheGap
              (MkCachedResource data cache (length data)
                 (length cache) false (combiner op))
            = length cache * m_cacheGap) as ->.
    { unfold getIteratorPastCache, getNumCaches. simpl.
      destruct cache; simpl in *; lia. }
    destruct (last cache) as [b|] eqn:Hlast.
    2:{ apply last_None in Hlast. subst cache. simpl in *. lia. }
    rewrite for_range_combiner by lia.
    rewrite bind_Done. eexists. split; [done|]. simpl. split; [done|].
    rewrite last_lookup in Hlast.
    rewrite Hcp in Hlast by lia.
    replace (pred (length cache) + 1) with (length cache) in Hlast by lia.
    intros i Hi. rewrite length_app in Hi. simpl in Hi.
    destruct (decide (i < length cache)) as [Hlt|Hge].
    + rewrite lookup_app_l by done. by apply Hcp.
    + assert (i = length cache) as -> by lia.
      rewrite list_lookup_middle by done.
      rewrite (take_ge data) by nia.
      rewrite (take_ge (drop _ _)) by (rewrite length_drop; lia).
      rewrite <- (take_drop (length cache * m_cacheGap) data) at 2.
      symmetry. by apply checkpoint_fold_app.
  - eexists. split; [done|]. simpl. split; [done|]. done.
Qed.

Lemma emplaceBack_at_top_combiner (op : T -> T -> T) s x :
  at_top m_cacheGap s ->
  m_function s = combiner op ->
  checkpoints_of m_cacheGap op (m_data s) (m_cache s) ->
  exists s', emplaceBack m_cacheGap x s = Done s'
    /\ at_top m_cacheGap s'
    /\ m_function s' = combiner op
    /\ m_data s' = m_data s ++ [x]
    /\ checkpoints_of m_cacheGap op (m_data s') (m_cache s').
Proof.
  intros Htop Hf Hcp.
  destruct (emplaceBack_at_top s x Htop) as (s' & Hs' & Htop' & _ & _ & Hf').
  exists s'. split_and!; try done; [congruence| |].
  - destruct (make_cache_at_top_combiner op s Htop Hf Hcp)
      as (s2 & Hmk & Hd & _).
    unfold emplaceBack in Hs'. destruct Htop as (_ & _ & _ & Huu).
    rewrite Huu, Hmk, bind_Done in Hs'. injection Hs' as <-. simpl. by rewrite Hd.
  - destruct (make_cache_at_top_combiner op s Htop Hf Hcp)
      as (s2 & Hmk & Hd & Hcp2).
    destruct (make_cache_at_top s Htop) as (s2' & Hmk' & _ & Hc2 & _).
    rewrite Hmk in Hmk'. injection Hmk' as <-.
    unfold emplaceBack in Hs'. destruct Htop as (_ & _ & _ & Huu).
    rewrite Huu, Hmk, bind_Done in Hs'. injection Hs' as <-. simpl.
    rewrite Hd. intros i Hi.
    rewrite take_app_le; [by apply Hcp2|].
    rewrite Hc2 in Hi.
    pose proof (Nat.div_mod_eq (length (m_data s)) m_cacheGap). nia.
Qed.

(** The object after appending the layers [l] to a new one. *)
Lemma run_emplaceBack_combiner (op : T -> T -> T) (l : list T) :
  exists s, run m_cacheGap (EmplaceBack <$> l) (make (combiner op)) = Done s
    /\ at_top m_cacheGap s
    /\ m_function s = combiner op
    /\ m_data s = l
    /\ checkpoints_of m_cacheGap op l (m_cache s).
Proof.
  induction l as [|x l IH] using rev_ind.
  - exists (make (combiner op)). split_and!; try done.
    + apply make_at_top.
    + intros i Hi. simpl in Hi. lia.
  - destruct IH as (s & Hrun & Htop & Hf & Hd & Hcp).
    rewrite fmap_app, run_app, Hrun, bind_Done. simpl.
    rewrite <- Hd in Hcp.
    destruct (emplaceBack_at_top_combiner op s x Htop Hf Hcp)
      as (s' & -> & Htop' & Hf' & Hd' & Hcp').
    exists s'. rewrite bind_Done. rewrite Hd in Hd'.
    rewrite Hd' in Hcp'. by split_and!.
Qed.
End Growing.

(** ** Moving the cursors: [undo] and [redo] *)

Section Stepping.
Context {T : Type}.
Variable m_cacheGap : nat.
Implicit Types s : @CachedResource T.

Lemma noCaches_false s : noCaches s = false <-> 0 < checkpointCursor s.
Proof.
  unfold noCaches, checkpointCursor. case_bool_decide; split; (done || lia).
Qed.

Lemma checkpointCursor_pos s :
  0 < checkpointCursor s ->
  m_cache s <> [] /\ checkpointCursor s = m_cacheLimit s.
Proof.
  unfold checkpointCursor, getNumCaches.
  destruct (m_cache s); simpl; [lia|done].
Qed.

Lemma dataLimit_singular_data s :
  m_data s <> [] -> dataLimit_singular s = false.
Proof. unfold dataLimit_singular. by destruct (m_data s). Qed.

Lemma dataLimit_singular_underUndo s :
  m_underUndo s = true -> dataLimit_singular s = false.
Proof. unfold dataLimit_singular. intros ->. by destruct (m_data s). Qed.

Lemma dataLimit_singular_make (f : @Function T) :
  dataLimit_singular (make f) = true.
Proof. done. Qed.

Lemma undo_Done s :
  dataLimit_singular s = false ->
  undo m_cacheGap s = Done (undo_body m_cacheGap s).
Proof. unfold undo. by intros ->. Qed.

Lemma undo_Done_inv s r :
  undo m_cacheGap s = Done r ->
  dataLimit_singular s = false /\ r = undo_body m_cacheGap s.
Proof.
  unfold undo. destruct (dataLimit_singular s); [done|].
  by intros [= <-].
Qed.

Lemma undo_store s :
  let s' := (undo_body m_cacheGap s).2 in
  m_data s' = m_data s /\ m_cache s' = m_cache s
  /\ m_function s' = m_function s /\ m_underUndo s' = true
  /\ m_cacheLimit s' <= m_cacheLimit s.
Proof.
  destruct s as [data cache dL cL uu f]. unfold undo_body. simpl.
  case_decide; [by simpl|].
  destruct (negb _ && _); simpl; split_and!; try done; lia.
Qed.

Lemma undo_pos s :
  0 < m_dataLimit s ->
  (undo_body m_cacheGap s).1 = true
  /\ m_dataLimit (undo_body m_cacheGap s).2 = m_dataLimit s - 1.
Proof.
  destruct s as [data cache dL cL uu f]. simpl. intros H. unfold undo_body. simpl.
  rewrite decide_False by lia. by destruct (negb _ && _).
Qed.

Lemma calls_S (m : @CachedResource T -> bool * CachedResource) k s :
  calls m (S k) s =
    ((m s).1 :: (calls m k (m s).2).1, (calls m k (m s).2).2).
Proof.
  simpl. destruct (m s) as [b s1]. simpl.
  by destruct (calls m k s1) as [bs s2].
Qed.

(** [k] calls of [undo] with at least [k] valid elements all succeed. *)
Lemma undo_calls k s :
  k <= m_dataLimit s ->
  let r := calls (undo_body m_cacheGap) k s in
  r.1 = repeat true k
  /\ m_dataLimit r.2 = m_dataLimit s - k
  /\ m_data r.2 = m_data s /\ m_cache r.2 = m_cache s
  /\ m_function r.2 = m_function s
  /\ (0 < k -> m_underUndo r.2 = true)
  /\ m_cacheLimit r.2 <= m_cacheLimit s.
Proof.
  revert s. induction k as [|k IH]; intros s Hk.
  - simpl. split_and!; try done; lia.
  - rewrite calls_S. cbv zeta. simpl fst. simpl snd.
    destruct (undo_pos s ltac:(lia)) as [Hb HdL].
    destruct (undo_store s) as (Hd & Hc & Hf & Hu & HcL).
    destruct (IH (undo_body m_cacheGap s).2 ltac:(lia))
      as (Hbs & HdL' & Hd' & Hc' & Hf' & Hu' & HcL').
    rewrite Hb, Hbs. simpl.
    split_and!; try done; try congruence; try lia.
    intros _. destruct k; [exact Hu|]. apply Hu'. lia.
Qed.

Lemma redo_idle s : m_underUndo s = false -> redo m_cacheGap s = (false, s).
Proof. intros H. unfold redo. by rewrite H. Qed.

Lemma redo_step s :
  m_underUndo s = true ->
  let r := redo m_cacheGap s in
  m_dataLimit r.2 = m_dataLimit s + 1
  /\ m_data r.2 = m_data s /\ m_cache r.2 = m_cache s
  /\ m_function r.2 = m_function s
  /\ (r.1 = false <-> m_dataLimit s + 1 = length (m_data s))
  /\ (m_underUndo r.2 = false <-> m_dataLimit s + 1 = length (m_data s)).
Proof.
  destruct s as [data cache dL cL uu f]. simpl. intros ->. unfold redo. simpl.
  destruct (bool_decide (dL + 1 = length data)) eqn:Hend; simpl;
    [apply bool_decide_eq_true in Hend|apply bool_decide_eq_false in Hend];
    case_bool_decide; simpl; by split_and!.
Qed.

(** From undo mode with [k > 0] elements ahead of the cursor, [k] calls of
    [redo] return [true] but for the last. *)
Lemma redo_calls k s :
  m_underUndo s = true ->
  m_dataLimit s + S k = length (m_data s) ->
  let r := calls (redo m_cacheGap) (S k) s in
  r.1 = repeat true k ++ [false]
  /\ m_underUndo r.2 = false
  /\ m_dataLimit r.2 = length (m_data r.2)
  /\ m_data r.2 = m_data s /\ m_cache r.2 = m_cache s.
Proof.
  revert s. induction k as [|k IH]; intros s Hu Hk;
    rewrite calls_S; cbv zeta; cbn [fst snd];
    destruct (redo_step s Hu) as (HdL & Hd & Hc & Hf & Hb & Hu').
  - simpl. destruct Hb as [_ ->]; [|lia]. destruct Hu' as [_ ->]; [|lia].
    rewrite HdL, Hd. split_and!; try done; lia.
  - destruct (redo m_cacheGap s) as [b s1] eqn:Hr.
    simpl in HdL, Hd, Hc, Hf, Hb, Hu'. cbn [fst snd].
    assert (b = true) as ->.
    { destruct b; [done|]. destruct Hb as [Hb _]. specialize (Hb eq_refl). lia. }
    assert (m_underUndo s1 = true) as Hu1.
    { destruct (m_underUndo s1); [done|].
      destruct Hu' as [Hu' _]. specialize (Hu' eq_refl). lia. }
    destruct (IH s1 Hu1 ltac:(rewrite Hd, HdL; lia))
      as (Hbs & Hu2 & HdL2 & Hd2 & Hc2).
    rewrite Hbs. split_and!; try done; congruence.
Qed.

(** Once assigned, [m_dataLimit] stays an iterator into [m_data] under
    [undo] and [redo]. *)
Lemma dataLimit_singular_undo_body s :
  dataLimit_singular (undo_body m_cacheGap s).2 = false.
Proof.
  apply dataLimit_singular_underUndo.
  by destruct (undo_store s) as (_ & _ & _ & Hu & _).
Qed.

Lemma dataLimit_singular_redo s :
  dataLimit_singular s = false ->
  dataLimit_singular (redo m_cacheGap s).2 = false.
Proof.
  intros Hset. destruct (m_underUndo s) eqn:Hu.
  2:{ by rewrite redo_idle. }
  destruct (redo_step s Hu) as (HdL & Hd & _ & _ & _ & Hu').
  destruct (m_underUndo (redo m_cacheGap s).2) eqn:Hu2.
  - by apply dataLimit_singular_underUndo.
  - apply dataLimit_singular_data. rewrite Hd. intros Hnil.
    destruct Hu' as [Hend _]. specialize (Hend eq_refl).
    rewrite Hnil in Hend. simpl in Hend. lia.
Qed.

Lemma step_Undo s :
  dataLimit_singular s = false ->
  step m_cacheGap Undo s = Done (undo_body m_cacheGap s).2.
Proof. intros Hset. unfold step. by rewrite undo_Done. Qed.

Lemma step_Undo_inv s s1 :
  step m_cacheGap Undo s = Done s1 ->
  dataLimit_singular s = false /\ s1 = (undo_body m_cacheGap s).2.
Proof.
  unfold step. intros Hstep.
  apply bind_Done_inv in Hstep as (r & Hr & Hstep).
  apply undo_Done_inv in Hr as [Hset ->]. by injection Hstep as <-.
Qed.

(** [k] calls of [undo] in a row are defined once the first one is. *)
Lemma defined_calls_undo k s :
  dataLimit_singular s = false ->
  defined_calls (undo m_cacheGap) k s
  = Done (calls (undo_body m_cacheGap) k s).
Proof.
  revert s. induction k as [|k IH]; intros s Hset; [done|].
  cbn [defined_calls calls]. rewrite (undo_Done s Hset), bind_Done.
  pose proof (dataLimit_singular_undo_body s) as Hset1.
  destruct (undo_body m_cacheGap s) as [b s1]. cbn [snd] in Hset1.
  rewrite (IH s1 Hset1), bind_Done.
  by destruct (calls (undo_body m_cacheGap) k s1) as [bs s2].
Qed.
End Stepping.

(** ** Truncation: [emplaceBack] in undo mode *)

Section Truncating.
Context {T : Type}.
Variable m_cacheGap : nat.
Hypothesis cacheGap_positive : 0 < m_cacheGap.
Implicit Types s : @CachedResource T.

Lemma clearUndo_in_bounds s :
  dataLimit_singular s = false ->
  in_bounds s ->
  clearUndo s =
    Done {| m_data := take (historyCursor s) (m_data s);
            m_cache := take (checkpointCursor s) (m_cache s);
            m_dataLimit := m_dataLimit s;
            m_cacheLimit := m_cacheLimit s;
            m_underUndo := false;
            m_function := m_function s |}.
Proof.
  intros Hset [Hd Hc]. unfold clearUndo, historyCursor in *. rewrite Hset.
  rewrite (pop_back_until_spec (m_dataLimit s) (m_data s)).
  rewrite decide_True by done. cbn [mbind outcome_bind].
  change (noCaches (set_data (take (m_dataLimit s) (m_data s)) s))
    with (noCaches s).
  cbn [set_data m_cache m_cacheLimit].
  destruct (noCaches s) eqn:Hno.
  - rewrite bind_Done.
    assert (checkpointCursor s = 0) as ->; [|done].
    unfold noCaches, checkpointCursor in *. case_bool_decide; [lia|done].
  - apply noCaches_false in Hno.
    destruct (checkpointCursor_pos s Hno) as [_ HcL].
    rewrite pop_back_until_spec, decide_True by lia. by rewrite HcL.
Qed.

Lemma make_cache_off_boundary s :
  length (m_data s) mod m_cacheGap <> 0 ->
  make_cache m_cacheGap s = Done s.
Proof.
  intros Hmod. unfold make_cache. rewrite decide_False.
  2:{ intros Heq. by rewrite Heq, Nat.Div0.mod_same in Hmod. }
  by rewrite bool_decide_eq_false_2 by (intros [_ ?]; done).
Qed.

Lemma emplaceBack_underUndo s x :
  m_underUndo s = true ->
  in_bounds s ->
  emplaceBack m_cacheGap x s =
    Done {| m_data := take (historyCursor s) (m_data s) ++ [x];
            m_cache := take (checkpointCursor s) (m_cache s);
            m_dataLimit := historyCursor s + 1;
            m_cacheLimit := m_cacheLimit s;
            m_underUndo := false;
            m_function := m_function s |}.
Proof.
  intros Hu Hb. unfold emplaceBack.
  rewrite Hu, (clearUndo_in_bounds s (dataLimit_singular_underUndo s Hu) Hb),
    bind_Done.
  destruct Hb as [Hd _].
  match goal with |- context [skip_cache x ?r] => set (s1 := r) end.
  assert (skip_cache x s1 =
            {| m_data := take (historyCursor s) (m_data s) ++ [x];
               m_cache := take (checkpointCursor s) (m_cache s);
               m_dataLimit := historyCursor s + 1;
               m_cacheLimit := m_cacheLimit s;
               m_underUndo := false;
               m_function := m_function s |}) as Hskip.
  { unfold skip_cache, s1, set_data, set_dataLimit.
    cbn [m_data m_cache m_cacheLimit m_underUndo m_function].
    by rewrite length_app, length_take_le. }
  case_decide as Hmod; [by rewrite Hskip|].
  by rewrite make_cache_off_boundary, bind_Done, Hskip.
Qed.

Lemma emplaceBack_leaves_undo s x s' :
  emplaceBack m_cacheGap x s = Done s' -> m_underUndo s' = false.
Proof.
  unfold emplaceBack. destruct (m_underUndo s) eqn:Hu.
  - intros H. apply bind_Done_inv in H as (s1 & Hclear & H).
    assert (m_underUndo s1 = false) as Hu1.
    { unfold clearUndo in Hclear.
      destruct (dataLimit_singular s); [done|].
      apply bind_Done_inv in Hclear as (d & _ & Hclear).
      apply bind_Done_inv in Hclear as (c & _ & Hclear).
      by injection Hclear as <-. }
    case_decide.
    + by injection H as <-.
    + apply bind_Done_inv in H as (s2 & Hmk & H). injection H as <-.
      simpl. unfold make_cache in Hmk.
      repeat case_match; try done;
        try (apply bind_Done_inv in Hmk as ([c d] & _ & Hmk));
        by injection Hmk as <-.
  - intros H. apply bind_Done_inv in H as (s2 & Hmk & H). injection H as <-.
    simpl. unfold make_cache in Hmk.
    repeat case_match; try done;
      try (apply bind_Done_inv in Hmk as ([c d] & _ & Hmk));
      by injection Hmk as <-.
Qed.

(** No [redo] does anything until an [undo] is called. *)
Lemma run_without_undo (cs : list call) s s' :
  Forall (fun c => c <> Undo) cs ->
  m_underUndo s = false ->
  run m_cacheGap cs s = Done s' ->
  m_underUndo s' = false.
Proof.
  intros Hcs. revert s. induction Hcs as [|c cs Hc _ IH]; intros s Hu Hrun.
  - by injection Hrun as <-.
  - rewrite run_cons in Hrun.
    apply bind_Done_inv in Hrun as (s1 & Hstep & Hrun).
    apply (IH s1); [|done].
    destruct c as [x| |]; simpl in Hstep; [|done|].
    + by apply emplaceBack_leaves_undo in Hstep.
    + rewrite redo_idle in Hstep by done. by injection Hstep as <-.
Qed.
End Truncating.

(** ** The queries *)

Section Queries.
Context {T : Type}.
Variable m_cacheGap : nat.
Implicit Types s : @CachedResource T.

Lemma getIteratorPastCache_insert s i c :
  getIteratorPastCache m_cacheGap (set_cache (<[i := c]> (m_cache s)) s)
  = getIteratorPastCache m_cacheGap s.
Proof.
  unfold getIteratorPastCache, getNumCaches. simpl.
  destruct (m_cache s) as [|c0 l]; [done|]. by destruct i.
Qed.

Lemma for_loop_keeps_inv {A : Type} (f : A -> T -> A * T) fuel acc it last
    (l : list T) a l' :
  keeps_element f ->
  for_loop fuel f acc it last l = Done (a, l') -> l' = l.
Proof.
  intros Hf. revert acc it l.
  induction fuel as [|fuel IH]; intros acc it l; simpl.
  - case_decide; [by intros [= _ <-]|]. by destruct (l !! it).
  - case_decide; [by intros [= _ <-]|].
    destruct (l !! it) as [x|] eqn:Hx; [|done].
    specialize (Hf acc x). destruct (f acc x) as [acc1 x']. simpl in Hf.
    subst x'. rewrite list_insert_id by done. apply IH.
Qed.

Lemma reduceTo_keeps value s value' s' :
  keeps_element (m_function s) ->
  reduceTo m_cacheGap value s = Done (value', s') -> s' = s.
Proof.
  intros Hf. unfold reduceTo. destruct (dataLimit_singular s); [done|].
  destruct (noCaches s).
  - intros H. apply bind_Done_inv in H as ([v d] & Hloop & H).
    apply for_loop_keeps_inv in Hloop; [|done]. subst d.
    injection H as _ <-. by destruct s.
  - intros H. apply bind_Done_inv in H as (p & _ & H).
    apply bind_Done_inv in H as ([i c] & Hderef & H).
    assert (m_cache s !! i = Some c) as Hic.
    { unfold deref_cache in Hderef. destruct p as [j|]; [|done].
      destruct (m_cache s !! j) eqn:Hj; [|done]. by injection Hderef as <- <-. }
    pose proof (Hf value c) as Hc.
    destruct (m_function s value c) as [v1 c1]. simpl in Hc. subst c1.
    apply bind_Done_inv in H as ([v d] & Hloop & H).
    apply for_loop_keeps_inv in Hloop; [|done]. subst d.
    injection H as _ <-. rewrite list_insert_id by done. by destruct s.
Qed.

Lemma reduceToF2_keeps {A : Type} (f : A -> T -> A * T) a s a' s' :
  keeps_element f ->
  reduceToF2 m_cacheGap f a s = Done (a', s') -> s' = s.
Proof.
  intros Hf. unfold reduceToF2. destruct (dataLimit_singular s); [done|].
  destruct (noCaches s).
  - intros H. apply bind_Done_inv in H as ([v d] & Hloop & H).
    apply for_loop_keeps_inv in Hloop; [|done]. subst d.
    injection H as _ <-. by destruct s.
  - intros H. apply bind_Done_inv in H as (p & _ & H).
    apply bind_Done_inv in H as ([i c] & Hderef & H).
    assert (m_cache s !! i = Some c) as Hic.
    { unfold deref_cache in Hderef. destruct p as [j|]; [|done].
      destruct (m_cache s !! j) eqn:Hj; [|done]. by injection Hderef as <- <-. }
    pose proof (Hf a c) as Hc.
    destruct (f a c) as [v1 c1]. simpl in Hc. subst c1.
    apply bind_Done_inv in H as ([v d] & Hloop & H).
    apply for_loop_keeps_inv in Hloop; [|done]. subst d.
    injection H as _ <-. rewrite list_insert_id by done. by destruct s.
Qed.

(** With [m_dataLimit] assigned and both cursors inside their containers
    every dereference of [reduceTo] finds an element. *)
Lemma reduceToF2_Done {A : Type} (f : A -> T -> A * T) a s :
  dataLimit_singular s = false ->
  in_bounds s -> is_Done (reduceToF2 m_cacheGap f a s).
Proof.
  intros Hset [Hd Hc]. unfold historyCursor in Hd.
  unfold reduceToF2, is_Done. rewrite Hset.
  destruct (noCaches s) eqn:Hno.
  - destruct (for_range_Done f a 0 (m_dataLimit s) (m_data s))
      as (a1 & d & -> & _); [lia|done|]. rewrite bind_Done. eauto.
  - apply noCaches_false in Hno.
    destruct (checkpointCursor_pos s Hno) as [_ HcL].
    unfold getLastCache. rewrite (proj2 (noCaches_false s) Hno).
    destruct (lookup_lt_is_Some_2 (m_cache s) (m_cacheLimit s - 1))
      as [c Hc']; [lia|].
    rewrite Hc', bind_Done. unfold deref_cache. rewrite Hc', bind_Done.
    destruct (f a c) as [a1 c1]. cbv zeta.
    rewrite getIteratorPastCache_insert. cbn [set_cache m_data m_dataLimit].
    destruct (for_range_Done f a1 (getIteratorPastCache m_cacheGap s)
                (m_dataLimit s) (m_data s)) as (a2 & d & -> & _).
    { unfold getIteratorPastCache. lia. }
    { done. }
    rewrite bind_Done. eauto.
Qed.

Lemma reduceTo_F2 value s :
  reduceTo m_cacheGap value s = reduceToF2 m_cacheGap (m_function s) value s.
Proof. done. Qed.
End Queries.

(** ** Reducing a history that was only appended to *)

Section ReducingGrown.
Context {T : Type}.
Variable m_cacheGap : nat.
Hypothesis cacheGap_positive : 0 < m_cacheGap.
Variable op : T -> T -> T.
Implicit Types s : @CachedResource T.

Lemma foldl_assoc_seed (v d0 : T) (r : list T) :
  (forall a b c, op a (op b c) = op (op a b) c) ->
  op v (foldl op d0 r) = foldl op (op v d0) r.
Proof.
  intros Hassoc. revert d0. induction r as [|y r IH]; intros d0; simpl.
  - done.
  - by rewrite IH, Hassoc.
Qed.

Lemma foldl_checkpoint (v b : T) (l1 l2 : list T) :
  (forall a b c, op a (op b c) = op (op a b) c) ->
  checkpoint_fold op l1 = Some b ->
  foldl op (op v b) l2 = foldl op v (l1 ++ l2).
Proof.
  intros Hassoc. destruct l1 as [|d0 r]; simpl; [done|].
  intros [= <-]. by rewrite foldl_app, foldl_assoc_seed.
Qed.

(** What [reduceTo(F2)] hands to a visitor that leaves the elements alone,
    on an object in the append-only shape with a non-empty history: the
    newest checkpoint and the elements after its block, or all elements
    while no checkpoint exists. *)
Lemma reduceToF2_at_top {A : Type} (f : A -> T -> A * T) (a : A) s :
  keeps_element f ->
  at_top m_cacheGap s ->
  m_data s <> [] ->
  let c := length (m_cache s) in
  reduceToF2 m_cacheGap f a s =
    Done (foldl (fun a x => (f a x).1) a
            (match last (m_cache s) with
             | Some b => [b]
             | None => []
             end ++ drop (c * m_cacheGap) (m_data s)), s).
Proof.
  intros Hf (HdL & HcL & Hlen & Hu) Hne. cbv zeta.
  pose proof (block_below m_cacheGap (length (m_data s))
                (length (m_cache s) - 1) cacheGap_positive) as Hblk.
  unfold reduceToF2. rewrite (dataLimit_singular_data s Hne).
  unfold noCaches, getLastCache, noCaches, getIteratorPastCache,
    getNumCaches.
  destruct s as [data cache dL cL uu g]. simpl in *. subst dL cL uu.
  destruct cache as [|c0 cache'] eqn:Hcache.
  - rewrite bool_decide_eq_true_2 by lia.
    rewrite for_range_keeps by (done || lia).
    rewrite bind_Done, Nat.sub_0_r. simpl. by rewrite firstn_all.
  - rewrite <- Hcache in *.
    assert (0 < length cache) as Hpos by (subst cache; simpl; lia).
    rewrite bool_decide_eq_false_2 by lia.
    rewrite last_lookup.
    destruct (lookup_lt_is_Some_2 cache (length cache - 1)) as [b Hb]; [lia|].
    replace (pred (length cache)) with (length cache - 1) by lia.
    rewrite Hb, bind_Done. unfold deref_cache. cbn [m_cache].
    rewrite Hb, bind_Done.
    pose proof (Hf a b) as Hfb. destruct (f a b) as [a1 b1] eqn:Hfab.
    simpl in Hfb. subst b1.
    specialize (Hblk ltac:(lia)).
    replace (length cache - 1 + 1) with (length cache) in Hblk by lia.
    rewrite list_insert_id by done.
    replace (match cache with [] => 0 | _ :: _ => length cache end)
      with (length cache) by (by rewrite Hcache).
    rewrite Nat.min_r by lia.
    rewrite for_range_keeps by (done || lia).
    rewrite bind_Done.
    rewrite (take_ge (drop _ _)) by (rewrite length_drop; lia).
    simpl. by rewrite Hfab.
Qed.

(** Reduction equivalence where only [emplaceBack] was called, once or
    more: [reduceTo] is the fold of all the layers, and the object is
    unchanged. *)
Lemma reduceTo_after_appends (l : list T) (value : T) :
  (forall a b c, op a (op b c) = op (op a b) c) ->
  l <> [] ->
  exists s,
    run m_cacheGap (EmplaceBack <$> l) (make (combiner op)) = Done s
    /\ reduceTo m_cacheGap value s = Done (fold_history op value s, s)
    /\ fold_history op value s = foldl op value l.
Proof.
  intros Hassoc Hl.
  destruct (run_emplaceBack_combiner m_cacheGap cacheGap_positive op l)
    as (s & Hrun & Htop & Hf & Hd & Hcp).
  exists s. split; [done|].
  assert (fold_history op value s = foldl op value l) as Hfold.
  { unfold fold_history, historyCursor. destruct Htop as (-> & _).
    by rewrite firstn_all, Hd. }
  split; [|done]. rewrite Hfold.
  rewrite reduceTo_F2, Hf.
  rewrite (reduceToF2_at_top (combiner op) value s);
    [|done|done|by rewrite Hd].
  f_equal. f_equal. cbv zeta. simpl.
  destruct (last (m_cache s)) as [b|] eqn:Hlast.
  - rewrite last_lookup in Hlast.
    assert (0 < length (m_cache s)) as Hpos.
    { apply lookup_lt_Some in Hlast. lia. }
    rewrite Hcp in Hlast by lia.
    replace (pred (length (m_cache s)) + 1) with (length (m_cache s))
      in Hlast by lia.
    simpl.
    change (foldl op (op value b) (drop (length (m_cache s) * m_cacheGap)
                                        (m_data s)) = foldl op value l).
    rewrite (foldl_checkpoint value b _ _ Hassoc Hlast).
    by rewrite Hd, take_drop.
  - apply last_None in Hlast. rewrite Hlast. simpl.
    change (foldl op value (drop 0 (m_data s)) = foldl op value l).
    by rewrite Hd.
Qed.

(** The replay bound where only [emplaceBack] was called, once or more: at
    most one checkpoint and [m_cacheGap] elements are visited. *)
Lemma visited_after_appends (f : @Function T) (l : list T) :
  l <> [] ->
  exists s seen,
    run m_cacheGap (EmplaceBack <$> l) (make f) = Done s
    /\ visited m_cacheGap s = Done seen
    /\ length seen <= m_cacheGap + 1.
Proof.
  intros Hl.
  destruct (run_emplaceBack_at_top m_cacheGap cacheGap_positive l (make f)
              (make_at_top m_cacheGap f))
    as (s & Hrun & Htop & Hlen & _).
  assert (m_data s <> []) as Hne.
  { intros Hnil. rewrite Hnil in Hlen. simpl in Hlen.
    destruct l; [done|simpl in Hlen; lia]. }
  exists s. unfold visited.
  rewrite (reduceToF2_at_top (fun seen x => (seen ++ [x], x)) [] s);
    [|done|done|done].
  rewrite bind_Done. eexists. split; [done|]. split; [done|].
  cbv zeta. simpl.
  assert (forall (k : list T) (acc : list T),
            length (foldl (fun a x => a ++ [x]) acc k)
            = length acc + length k) as Hcount.
  { induction k as [|y k IH]; intros acc; simpl; [lia|].
    rewrite IH, length_app. simpl. lia. }
  rewrite Hcount, length_app, length_drop. simpl.
  destruct Htop as (_ & _ & Hc & _).
  pose proof (Nat.div_mod_eq (length (m_data s) - 1) m_cacheGap) as Hdm.
  pose proof (Nat.mod_upper_bound (length (m_data s) - 1) m_cacheGap
                ltac:(lia)) as Hub.
  destruct (last (m_cache s)) as [b|] eqn:Hlast; simpl.
  - rewrite Hc. nia.
  - apply last_None in Hlast. rewrite Hlast in *. simpl in *.
    rewrite <- Hc in Hdm. lia.
Qed.
End ReducingGrown.

(** ** The test [[CachedResource] Undo/Redo] *)

Lemma adder_combiner : adder = combiner Z.add.
Proof. done. Qed.

Lemma ten_layers_run :
  run test_gap (EmplaceBack <$> layers 10) (make adder) = Done ten_layers.
Proof. by vm_compute. Qed.

(** Every assertion of the test, in the order of the test.  [at_ d c u] is
    the object of the test with [m_dataLimit] at offset [d], [m_cacheLimit]
    at offset [c] and the flag [u]. *)
Example test_undo_redo :
  let res := ten_layers in
  let at_ (d c : nat) (u : bool) :=
    set_underUndo u (set_cacheLimit c (set_dataLimit d res)) in
  reduceTo test_gap 0%Z res = Done (55%Z, res)
  /\ getLast res = Done 10%Z
  /\ getLastCache res ≫= deref_cache res = Done (2, 45%Z)
  /\ let u1 := at_ 9 3 true in
     undo test_gap res = Done (true, u1)
     /\ getLastCache u1 ≫= deref_cache u1 = Done (2, 45%Z)
     /\ underUndo u1 = true
  /\ let u2 := at_ 8 2 true in
     undo test_gap u1 = Done (true, u2)
     /\ getLastCache u2 ≫= deref_cache u2 = Done (1, 21%Z)
     /\ underUndo u2 = true
  /\ let r1 := redo test_gap u2 in
     r1.1 = true
     /\ getLastCache r1.2 ≫= deref_cache r1.2 = Done (2, 45%Z)
     /\ underUndo r1.2 = true
  /\ let r2 := redo test_gap r1.2 in
     r2.1 = false
     /\ getLastCache r2.2 ≫= deref_cache r2.2 = Done (2, 45%Z)
     /\ underUndo r2.2 = false
  /\ let u9 := at_ 1 0 true in
     (defined_calls (undo test_gap) 9 r2.2 ≫= fun r => Done (last r.1, r.2))
     = Done (Some true, u9)
     /\ getLastCache u9 = Done None
     /\ getLast u9 = Done 1%Z
     /\ underUndo u9 = true
  /\ let u10 := at_ 0 0 true in
     undo test_gap u9 = Done (true, u10)
     /\ underUndo u10 = true
     /\ (reduceTo test_gap 0%Z u10 ≫= fun r => Done r.1) = Done 0%Z
  /\ undo test_gap u10 = Done (false, u10)
  /\ let r9 := calls (redo test_gap) 9 u10 in
     last r9.1 = Some true
     /\ underUndo r9.2 = true
  /\ let r10 := redo test_gap r9.2 in
     r10.1 = false
     /\ underUndo r10.2 = false.
Proof. by vm_compute. Qed.

(** * The claims *)

(** ** Reduction *)

(** C1. Reduction equivalence asks [reduceTo] to agree with the fold of the
    history elements [[0, historyCursor)] in every reachable state.  With
    the gap of the test and integer addition (an associative combiner),
    after nine layers, one [undo] and two more layers the newest checkpoint
    covers nine elements while the replay starts at element six: [reduceTo]
    into [0] yields [451], the fold from scratch yields [336]. *)
Theorem reduceTo_counts_twice_after_truncation :
  let s := after_truncate_and_grow in
  (forall a b c : Z, (a + (b + c) = a + b + c)%Z)
  /\ run test_gap truncate_and_grow (make adder) = Done s
  /\ historyCursor s = 10 /\ checkpointCursor s = 2
  /\ reduceTo test_gap 0%Z s = Done (451%Z, s)
  /\ fold_history Z.add 0%Z s = 336%Z.
Proof. split; [intros; lia|]. by vm_compute. Qed.

(** C8. The replay bound asks a [reduceTo] call to visit at most
    [m_cacheGap] history elements and one checkpoint.  With the gap of the
    test, six layers and one [undo] leave no valid checkpoint and five valid
    elements: the call visits all five. *)
Theorem reduceTo_replays_more_than_gap :
  let s := after_undo_some_6_1 in
  run test_gap (undo_some 6 1) (make adder) = Done s
  /\ historyCursor s = 5 /\ checkpointCursor s = 0
  /\ visited test_gap s = Done [1; 2; 3; 4; 5]%Z
  /\ test_gap + 1 < length [1; 2; 3; 4; 5]%Z.
Proof. by vm_compute. Qed.

(** ** The cursors *)

(** C2. The cursor bounds ask both cursors to stay inside their containers
    in every reachable state.  With the gap of the test, six layers, six
    times [undo] and six times [redo] leave the checkpoint cursor at [2]
    with one checkpoint stored. *)
Theorem redo_moves_cacheLimit_past_the_end :
  let s := after_undo_all_redo_all_6 in
  run test_gap (undo_all_redo_all 6) (make adder) = Done s
  /\ reachable test_gap adder s
  /\ historyCursor s = 6 /\ length (m_data s) = 6
  /\ checkpointCursor s = 2 /\ length (m_cache s) = 1
  /\ ~ in_bounds s.
Proof.
  cbv zeta. split; [by vm_compute|]. split.
  { exists (undo_all_redo_all 6). by vm_compute. }
  split_and!; try done. unfold in_bounds. vm_compute. lia.
Qed.

(** C3. Undo/redo symmetry asks [redo] right after a successful [undo] to
    restore both cursors.  With the gap of the test, six layers and three
    times [undo] leave three valid elements and no valid checkpoint; one
    more [undo] succeeds and keeps the checkpoint cursor at [0], the [redo]
    after it restores the history cursor and moves the checkpoint cursor
    to [1]. *)
Theorem undo_redo_gains_a_checkpoint :
  let s := after_undo_some_6_3 in
  let u := after_undo_some_6_4 in
  let r := redo test_gap u in
  run test_gap (undo_some 6 3) (make adder) = Done s
  /\ undo test_gap s = Done (true, u)
  /\ historyCursor s = 3 /\ historyCursor r.2 = 3
  /\ checkpointCursor s = 0 /\ checkpointCursor u = 0
  /\ checkpointCursor r.2 = 1.
Proof. by vm_compute. Qed.

(** On every object whose [m_dataLimit] has been assigned, [undo] does what
    its documentation says: it enters undo mode and never touches the
    containers.  At history cursor [0] it returns [false] and moves no
    cursor.  Otherwise it returns [true], moves the history cursor back by
    one, and moves the checkpoint cursor back by one exactly when a valid
    checkpoint exists and the history cursor before the call is a multiple
    of the gap. *)
Lemma undo_spec {T : Type} (g : nat) (s : @CachedResource T) :
  dataLimit_singular s = false ->
  exists b s',
    undo g s = Done (b, s')
    /\ underUndo s' = true
    /\ m_data s' = m_data s /\ m_cache s' = m_cache s
    /\ m_function s' = m_function s
    /\ (historyCursor s = 0 ->
        b = false /\ historyCursor s' = 0
        /\ m_cacheLimit s' = m_cacheLimit s
        /\ checkpointCursor s' = checkpointCursor s)
    /\ (historyCursor s <> 0 ->
        b = true /\ historyCursor s' + 1 = historyCursor s
        /\ if decide (0 < checkpointCursor s /\ historyCursor s mod g = 0)
           then checkpointCursor s' + 1 = checkpointCursor s
           else checkpointCursor s' = checkpointCursor s).
Proof.
  intros Hset. exists (undo_body g s).1, (undo_body g s).2.
  split; [rewrite (undo_Done g s Hset); by destruct (undo_body g s)|].
  clear Hset. destruct s as [data cache dL cL uu f].
  unfold historyCursor, checkpointCursor, underUndo, undo_body, noCaches,
    getNumCaches. simpl.
  destruct (decide (dL = 0)) as [->|Hz]; simpl; [by split_and!|].
  destruct cache as [|c0 cache']; simpl;
    repeat case_bool_decide; simpl; repeat case_decide;
    split_and!; try done; try lia; intros _; split_and!; try done; lia.
Qed.

(** C6. The claim, and the documentation of [undo] ([false] if already at
    the oldest change), ask [undo] at history cursor [0] to return [false]
    and only enter undo mode.  A newly constructed buffer has an empty
    history, so nothing to undo and the history cursor of the specification
    at [0]; there [undo] takes the distance of the value-initialised
    [m_dataLimit] from [begin()]: the call is undefined, it does not return
    [false], whatever the gap and the combiner. *)
Theorem undo_on_new_buffer_undefined {T : Type} (g : nat)
    (f : @Function T) :
  getUnderlying (make f) = []
  /\ underUndo (make f) = false
  /\ undo g (make f) = Undefined
  /\ undo g (make f) <> Done (false, set_underUndo true (make f)).
Proof. by split_and!. Qed.

(** C5. Outside undo mode [redo] returns [false] and changes nothing.  In
    undo mode it moves the history cursor forward by one; it returns
    [false], and leaves undo mode, exactly when that step reaches the end of
    the history.  Hence from undo mode with [k + 1] elements ahead of the
    cursor, [k + 1] calls of [redo] return [true] but for the last one,
    which returns [false], still moves the cursor to the end and leaves
    undo mode; in particular after a non-empty history of appended layers
    has been undone completely. *)
Theorem redo_spec {T : Type} (g : nat) :
  (forall s : @CachedResource T,
     underUndo s = false -> redo g s = (false, s))
  /\ (forall s : @CachedResource T,
        underUndo s = true ->
        let r := redo g s in
        historyCursor r.2 = historyCursor s + 1
        /\ m_data r.2 = m_data s /\ m_cache r.2 = m_cache s
        /\ (r.1 = false <-> historyCursor s + 1 = length (m_data s))
        /\ (underUndo r.2 = false <->
              historyCursor s + 1 = length (m_data s)))
  /\ (forall (s : @CachedResource T) (k : nat),
        underUndo s = true ->
        historyCursor s + S k = length (m_data s) ->
        let r := calls (redo g) (S k) s in
        r.1 = repeat true k ++ [false]
        /\ historyCursor r.2 = length (m_data s)
        /\ underUndo r.2 = false)
  /\ (forall (f : @Function T) (l : list T),
        0 < g -> l <> [] ->
        exists s0 u,
          run g (EmplaceBack <$> l) (make f) = Done s0
          /\ defined_calls (undo g) (length l) s0
             = Done (repeat true (length l), u)
          /\ let r := calls (redo g) (length l) u in
             historyCursor u = 0 /\ underUndo u = true
             /\ r.1 = repeat true (length l - 1) ++ [false]
             /\ historyCursor r.2 = length l
             /\ underUndo r.2 = false).
Proof.
  split; [apply redo_idle|]. split.
  - intros s Hu. destruct (redo_step g s Hu) as (H1 & H2 & H3 & _ & H4 & H5).
    by split_and!.
  - split.
    { intros s k Hu Hk.
      destruct (redo_calls g k s Hu Hk) as (Hr & Hu2 & HdL2 & Hd2 & _).
      unfold historyCursor, underUndo. split_and!; try done. congruence. }
    intros f l Hg Hl.
    destruct (run_emplaceBack_at_top g Hg l (make f) (make_at_top g f))
      as (s0 & Hrun & (HdL & _ & _ & _) & Hlen & _).
    simpl in Hlen.
    assert (0 < length l) as Hpos by (destruct l; simpl; [done|lia]).
    assert (m_data s0 <> []) as Hne.
    { intros Hnil. rewrite Hnil in Hlen. simpl in Hlen. lia. }
    exists s0, (calls (undo_body g) (length l) s0).2.
    split; [done|]. cbv zeta.
    destruct (undo_calls g (length l) s0 ltac:(lia))
      as (Hbs & HdL' & Hd' & _ & _ & Hu' & _).
    specialize (Hu' Hpos).
    rewrite (defined_calls_undo g (length l) s0
               (dataLimit_singular_data s0 Hne)).
    set (u := calls (undo_body g) (length l) s0) in *.
    split; [destruct u as [bs s1]; simpl in Hbs; by rewrite Hbs|].
    destruct (redo_calls g (length l - 1) u.2 Hu') as (Hr & Hu2 & HdL2 & Hd2 & _).
    { rewrite HdL', Hd'. lia. }
    replace (S (length l - 1)) with (length l) in * by lia.
    unfold historyCursor, underUndo.
    split_and!; try done; [lia|]. rewrite HdL2, Hd2, Hd'. lia.
Qed.

(** ** Appending *)

(** C4 as stated fails where the number of layers is a positive multiple of
    the gap: with the gap of the test, three layers leave no checkpoint,
    where [3 / 3 = 1]. *)
Lemma three_layers_no_checkpoint :
  let s := {| m_data := layers 3; m_cache := [];
              m_dataLimit := 3; m_cacheLimit := 0;
              m_underUndo := false; m_function := adder |} in
  run test_gap (EmplaceBack <$> layers 3) (make adder) = Done s
  /\ checkpointCursor s = 0
  /\ checkpointCursor s <> 3 / test_gap.
Proof. by vm_compute. Qed.

(** C4, amended.  After appending [N] layers to a new buffer with gap
    [g >= 1], and no [undo], the history is these layers, the checkpoint
    cursor and the number of checkpoints are [(N - 1) / g] (that is [N / g],
    but one less when [N] is a positive multiple of [g]: the checkpoint of a
    block is made by the call that appends the next element), and
    checkpoint [i] is the combiner-fold of the elements [[0, (i+1)*g)]. *)
Theorem checkpoints_after_appends {T : Type} (g : nat) (op : T -> T -> T)
    (l : list T) :
  0 < g ->
  exists s,
    run g (EmplaceBack <$> l) (make (combiner op)) = Done s
    /\ m_data s = l /\ historyCursor s = length l
    /\ underUndo s = false
    /\ checkpointCursor s = (length l - 1) / g
    /\ length (m_cache s) = (length l - 1) / g
    /\ (length l / g =
         checkpointCursor s
         + if decide (0 < length l /\ length l mod g = 0) then 1 else 0)
    /\ forall i, i < (length l - 1) / g ->
         m_cache s !! i = checkpoint_fold op (take ((i + 1) * g) l)
         /\ is_Some (m_cache s !! i).
Proof.
  intros Hg.
  destruct (run_emplaceBack_combiner g Hg op l)
    as (s & Hrun & (HdL & HcL & Hlen & Hu) & Hf & Hd & Hcp).
  exists s. subst l.
  assert (checkpointCursor s = (length (m_data s) - 1) / g) as Hcur.
  { unfold checkpointCursor, getNumCaches.
    destruct (m_cache s); simpl in *; lia. }
  split_and!; try done.
  - by rewrite Hcur, <- div_pred.
  - intros i Hi. rewrite <- Hlen in Hi. split; [by apply Hcp|].
    by apply lookup_lt_is_Some_2.
Qed.

(** Truncation on a buffer that was only appended to.  Append [N] layers
    to a new buffer, call [undo] [k] times with [0 < k < N] (every call
    returns [true]), then append [x].  The append succeeds; [getLast]
    returns [x]; the history is the elements before the history cursor
    followed by [x], the checkpoints are those before the checkpoint cursor;
    the buffer is out of undo mode; and [redo] returns [false] and changes
    nothing, now and after any further calls other than [undo]. *)
Lemma truncate_on_append {T : Type} (g : nat) (f : @Function T)
    (l : list T) (k : nat) (x : T) :
  0 < g -> 0 < k < length l ->
  exists s0 u,
    run g (EmplaceBack <$> l) (make f) = Done s0
    /\ defined_calls (undo g) k s0 = Done (repeat true k, u)
    /\ historyCursor u = length l - k
    /\ exists s2,
         emplaceBack g x u = Done s2
         /\ getLast s2 = Done x
         /\ m_data s2 = take (historyCursor u) (m_data s0) ++ [x]
         /\ m_cache s2 = take (checkpointCursor u) (m_cache s0)
         /\ historyCursor s2 = length (m_data s2)
         /\ underUndo s2 = false
         /\ redo g s2 = (false, s2)
         /\ forall cs s3,
              Forall (fun c => c <> Undo) cs ->
              run g cs s2 = Done s3 ->
              redo g s3 = (false, s3).
Proof.
  intros Hg Hk.
  destruct (run_emplaceBack_at_top g Hg l (make f) (make_at_top g f))
    as (s0 & Hrun & (HdL & HcL & _ & _) & Hlen & _).
  simpl in Hlen.
  assert (m_data s0 <> []) as Hne.
  { intros Hnil. rewrite Hnil in Hlen. simpl in Hlen. lia. }
  exists s0, (calls (undo_body g) k s0).2. split; [done|].
  destruct (undo_calls g k s0 ltac:(lia))
    as (Hbs & HdL' & Hd' & Hc' & _ & Hu' & HcL').
  specialize (Hu' ltac:(lia)).
  rewrite (defined_calls_undo g k s0 (dataLimit_singular_data s0 Hne)).
  set (u := calls (undo_body g) k s0) in *.
  assert (in_bounds u.2) as Hb.
  { split; unfold historyCursor, checkpointCursor, getNumCaches.
    - rewrite HdL', Hd'. lia.
    - rewrite Hc'. destruct (m_cache s0); simpl in *; lia. }
  split; [destruct u as [bs s1]; simpl in Hbs; by rewrite Hbs|].
  split; [unfold historyCursor; lia|].
  eexists. split; [by apply emplaceBack_underUndo|].
  assert (length (take (historyCursor u.2) (m_data u.2))
          = historyCursor u.2) as Htake.
  { apply length_take_le. apply Hb. }
  split_and!.
  - unfold getLast. cbn [m_dataLimit m_data].
    replace (historyCursor u.2 + 1) with (S (historyCursor u.2)) by lia.
    by rewrite lookup_app_r, Htake, Nat.sub_diag by lia.
  - simpl. by rewrite Hd'.
  - simpl. by rewrite Hc'.
  - unfold historyCursor at 1. simpl. rewrite length_app, Htake. done.
  - done.
  - by apply redo_idle.
  - intros cs s3 Hcs Hrun3. apply redo_idle.
    by eapply run_without_undo; [exact Hcs| |exact Hrun3].
Qed.

(** C7. Truncate-on-append asks an append after successful undos to return,
    on any buffer holding appended layers.  With the gap of the test, nine
    layers, three times [undo], one more layer, then five times [undo] and
    five times [redo] leave a buffer of seven layers, out of undo mode,
    whose checkpoint cursor is [2] with one checkpoint stored.  One [undo]
    on it returns [true]; the append after it pops the empty [m_cache] in
    [clearUndo]: it is undefined, whatever is appended. *)
Theorem append_after_undo_pops_empty_cache :
  let s := seven_layers in
  let u := seven_layers_undo in
  run test_gap seven_layers_calls (make adder) = Done s
  /\ reachable test_gap adder s
  /\ length (m_data s) = 7 /\ historyCursor s = 7 /\ underUndo s = false
  /\ undo test_gap s = Done (true, u)
  /\ historyCursor u = 6
  /\ checkpointCursor u = 2 /\ length (m_cache u) = 1
  /\ forall x : Z, emplaceBack test_gap x u = Undefined.
Proof.
  cbv zeta. split; [by vm_compute|]. split.
  { exists seven_layers_calls. by vm_compute. }
  split_and!; [done..|]. intros x. by vm_compute.
Qed.

(** ** The queries *)

(** C9 as stated fails at history cursor [0]: [getLast] checks nothing and
    reports nothing, its behaviour on a new buffer is undefined. *)
Lemma getLast_on_new_buffer_not_reported :
  historyCursor (make adder) = 0
  /\ getLast (make adder) = Undefined
  /\ getLast (make adder) <> Raised.
Proof. by vm_compute. Qed.

(** C9, amended.  With the history cursor positive and inside the history,
    [getLast] returns the element at position [historyCursor - 1]; with the
    history cursor at [0] the call is not checked: nothing is returned and
    nothing is reported, the behaviour is undefined. *)
Theorem getLast_spec {T : Type} (s : @CachedResource T) :
  (0 < historyCursor s <= length (m_data s) ->
   exists x, m_data s !! (historyCursor s - 1) = Some x
             /\ getLast s = Done x)
  /\ (historyCursor s = 0 -> getLast s = Undefined).
Proof.
  unfold historyCursor, getLast. split.
  - intros [Hpos Hle]. destruct (m_dataLimit s) as [|i]; [lia|].
    replace (S i - 1) with i by lia.
    destruct (lookup_lt_is_Some_2 (m_data s) i) as [x Hx]; [lia|].
    exists x. by rewrite Hx.
  - by intros ->.
Qed.

(** The proviso of C10 is needed: a combiner that also writes its second
    argument rewrites the history during a [reduceTo]. *)
Example reduceTo_with_writing_combiner :
  let f : @Function Z := fun dest src => ((dest + src)%Z, 0%Z) in
  let s := {| m_data := [1; 2]%Z; m_cache := []; m_dataLimit := 2;
              m_cacheLimit := 0; m_underUndo := false; m_function := f |} in
  run test_gap (EmplaceBack <$> [1; 2]%Z) (make f) = Done s
  /\ (reduceTo test_gap 0%Z s ≫= fun r => Done (r.1, m_data r.2))
     = Done (3%Z, [0; 0]%Z).
Proof. by vm_compute. Qed.

(** C10. A call of [getLastCache], [getLast], [underUndo] or either form of
    [reduceTo] that returns leaves the object as it was, provided the
    combiner (for [reduceTo(T&)]) or the visitor (for [reduceTo(F2)]) leaves
    its element argument as it was. *)
Theorem queries_keep_object {T A : Type} (g : nat) (q : query A)
    (s s' : @CachedResource T) :
  well_behaved q s ->
  after_query g q s = Done s' ->
  s' = s
  /\ m_data s' = m_data s /\ m_cache s' = m_cache s
  /\ historyCursor s' = historyCursor s
  /\ checkpointCursor s' = checkpointCursor s
  /\ underUndo s' = underUndo s.
Proof.
  intros Hq Hs'. assert (s' = s) as ->; [|done].
  destruct q as [| | |value|f a]; simpl in *.
  - apply bind_Done_inv in Hs' as (_ & _ & Hs'). by injection Hs' as <-.
  - apply bind_Done_inv in Hs' as (_ & _ & Hs'). by injection Hs' as <-.
  - by injection Hs' as <-.
  - apply bind_Done_inv in Hs' as ([v s1] & Hr & Hs'). injection Hs' as <-.
    by apply reduceTo_keeps in Hr.
  - apply bind_Done_inv in Hs' as ([v s1] & Hr & Hs'). injection Hs' as <-.
    by apply reduceToF2_keeps in Hr.
Qed.

(** ** The theorems at the configuration of the test *)

Lemma checkpoints_after_appends_witness :
  0 < test_gap
  /\ exists s,
       run test_gap (EmplaceBack <$> layers 10) (make (combiner Z.add))
         = Done s
       /\ checkpointCursor s = 3
       /\ m_cache s !! 2 = Some 45%Z.
Proof.
  assert (0 < test_gap) as Hg by (unfold test_gap; lia).
  split; [exact Hg|].
  destruct (checkpoints_after_appends test_gap Z.add (layers 10) Hg)
    as (s & Hrun & _ & _ & _ & Hcur & _ & _ & Hcp).
  exists s. split; [exact Hrun|]. split; [exact Hcur|].
  destruct (Hcp 2) as [Hc _]; [vm_compute; lia|]. exact Hc.
Defined.

Lemma redo_spec_witness :
  (underUndo ten_layers = false
   /\ redo test_gap ten_layers = (false, ten_layers))
  /\ (underUndo after_undo_some_6_3 = true
      /\ historyCursor (redo test_gap after_undo_some_6_3).2 = 4)
  /\ (0 < test_gap /\ layers 10 <> []
      /\ exists s0 u,
           run test_gap (EmplaceBack <$> layers 10) (make adder) = Done s0
           /\ defined_calls (undo test_gap) 10 s0 = Done (repeat true 10, u)
           /\ (calls (redo test_gap) 10 u).1 = repeat true 9 ++ [false]).
Proof.
  destruct (@redo_spec Z test_gap) as (Hidle & Hstep & _ & Hfull).
  split; [split; [reflexivity|apply Hidle; reflexivity]|].
  split.
  - split; [reflexivity|].
    destruct (Hstep after_undo_some_6_3 eq_refl) as (Hcur & _).
    exact Hcur.
  - assert (0 < test_gap) as Hg by (unfold test_gap; lia).
    assert (layers 10 <> []) as Hl by (vm_compute; discriminate).
    split; [exact Hg|]. split; [exact Hl|].
    destruct (Hfull adder (layers 10) Hg Hl)
      as (s0 & u & Hrun & Hundo & _ & _ & Hr & _).
    exists s0, u. split; [exact Hrun|]. split; [exact Hundo|exact Hr].
Defined.

Lemma getLast_spec_witness :
  (0 < historyCursor ten_layers <= length (m_data ten_layers)
   /\ exists x, m_data ten_layers !! (historyCursor ten_layers - 1) = Some x
                /\ getLast ten_layers = Done x)
  /\ (historyCursor (make adder) = 0
      /\ getLast (make adder) = Undefined).
Proof.
  split.
  - assert (0 < historyCursor ten_layers <= length (m_data ten_layers))
      as Hc by (vm_compute; lia).
    split; [exact Hc|]. exact (proj1 (getLast_spec ten_layers) Hc).
  - split; [reflexivity|]. exact (proj2 (getLast_spec (make adder)) eq_refl).
Defined.

Lemma queries_keep_object_witness :
  well_behaved (@ReduceTo Z Z 0%Z) ten_layers
  /\ after_query test_gap (@ReduceTo Z Z 0%Z) ten_layers = Done ten_layers
  /\ ten_layers = ten_layers.
Proof.
  assert (well_behaved (@ReduceTo Z Z 0%Z) ten_layers) as Hq.
  { intros a x. reflexivity. }
  assert (after_query test_gap (@ReduceTo Z Z 0%Z) ten_layers
          = Done ten_layers) as Hr by (vm_compute; reflexivity).
  split; [exact Hq|]. split; [exact Hr|].
  destruct (queries_keep_object test_gap (@ReduceTo Z Z 0%Z)
              ten_layers ten_layers Hq Hr) as (Heq & _).
  exact Heq.
Defined.

(** * Further properties of the class *)

(** ** [clearUndo] and [emplaceBack]: when they are defined, what they keep *)

Section Appending.
Context {T : Type}.
Variable m_cacheGap : nat.
Implicit Types s : @CachedResource T.

Lemma for_loop_length_inv {A : Type} (f : A -> T -> A * T) fuel acc it last
    (l : list T) a l' :
  for_loop fuel f acc it last l = Done (a, l') -> length l' = length l.
Proof.
  revert acc it l.
  induction fuel as [|fuel IH]; intros acc it l; simpl.
  - case_decide; [by intros [= _ <-]|]. by destruct (l !! it).
  - case_decide; [by intros [= _ <-]|].
    destruct (l !! it) as [x|] eqn:Hx; [|done].
    destruct (f acc x) as [acc1 x']. intros Hrec. apply IH in Hrec.
    by rewrite length_insert in Hrec.
Qed.

Lemma clearUndo_Done_inv s s1 :
  clearUndo s = Done s1 -> in_bounds s.
Proof.
  unfold clearUndo. intros Hcl.
  destruct (dataLimit_singular s); [done|].
  apply bind_Done_inv in Hcl as (data & Hdata & Hcl).
  rewrite pop_back_until_spec in Hdata.
  case_decide as Hd; [|done].
  apply bind_Done_inv in Hcl as (cache & Hcache & _).
  change (noCaches (set_data data s)) with (noCaches s) in Hcache.
  cbn [set_data m_cache m_cacheLimit] in Hcache.
  split; [done|].
  destruct (noCaches s) eqn:Hno.
  - unfold noCaches in Hno. apply bool_decide_eq_true in Hno.
    unfold checkpointCursor. lia.
  - rewrite pop_back_until_spec in Hcache. case_decide as Hc; [|done].
    apply noCaches_false in Hno.
    destruct (checkpointCursor_pos s Hno) as [_ ->]. done.
Qed.

Lemma clearUndo_Done s :
  dataLimit_singular s = false ->
  in_bounds s ->
  clearUndo s =
    Done (set_underUndo false
            (set_cache (take (checkpointCursor s) (m_cache s))
               (set_data (take (historyCursor s) (m_data s)) s))).
Proof.
  intros Hset [Hd Hc]. unfold clearUndo, historyCursor in *. rewrite Hset.
  rewrite (pop_back_until_spec (m_dataLimit s) (m_data s)).
  rewrite decide_True by done. cbn [mbind outcome_bind].
  change (noCaches (set_data (take (m_dataLimit s) (m_data s)) s))
    with (noCaches s).
  cbn [set_data m_cache m_cacheLimit].
  destruct (noCaches s) eqn:Hno.
  - rewrite bind_Done.
    assert (checkpointCursor s = 0) as ->; [|done].
    unfold noCaches, checkpointCursor in *. case_bool_decide; [lia|done].
  - apply noCaches_false in Hno.
    destruct (checkpointCursor_pos s Hno) as [_ HcL].
    rewrite pop_back_until_spec, decide_True by lia. by rewrite HcL.
Qed.

Lemma clearUndo_out_of_bounds s :
  ~ in_bounds s -> clearUndo s = Undefined.
Proof.
  intros Hout. destruct (clearUndo s) as [s1| |] eqn:Hcl; [| |done].
  - by apply clearUndo_Done_inv in Hcl.
  - unfold clearUndo in Hcl. destruct (dataLimit_singular s); [done|].
    rewrite pop_back_until_spec in Hcl.
    case_decide; [|done]. rewrite bind_Done in Hcl.
    change (noCaches (set_data (take (m_dataLimit s) (m_data s)) s))
      with (noCaches s) in Hcl.
    cbn [set_data m_cache m_cacheLimit] in Hcl.
    destruct (noCaches s); [done|].
    rewrite pop_back_until_spec in Hcl. by case_decide.
Qed.

(** What the checkpoint branches of [emplaceBack] do when they return. *)
Lemma make_cache_inv s s2 :
  make_cache m_cacheGap s = Done s2 ->
  length (m_data s2) = length (m_data s)
  /\ m_dataLimit s2 = m_dataLimit s
  /\ m_underUndo s2 = m_underUndo s
  /\ m_function s2 = m_function s
  /\ (keeps_element (m_function s) -> m_data s2 = m_data s)
  /\ ((m_cache s2 = m_cache s /\ m_cacheLimit s2 = m_cacheLimit s)
      \/ (exists c, m_cache s2 = m_cache s ++ [c]
                    /\ m_cacheLimit s2 = length (m_cache s2)
                    /\ m_data s <> []
                    /\ length (m_data s) mod m_cacheGap = 0)).
Proof.
  unfold make_cache.
  destruct (decide (length (m_data s) = m_cacheGap)) as [Hfull|Hfull].
  - destruct (m_data s) as [|d0 r] eqn:Hdata; [done|].
    intros Hmk. apply bind_Done_inv in Hmk as ([c data] & Hloop & Hmk).
    injection Hmk as <-. simpl.
    pose proof (for_loop_length_inv _ _ _ _ _ _ _ _ Hloop) as Hlen.
    split_and!; try done.
    + intros Hf. by apply for_loop_keeps_inv in Hloop.
    + right. exists c. split_and!; try done.
      change (S (length r)) with (length (d0 :: r)).
      rewrite Hfull. apply Nat.Div0.mod_same.
  - case_bool_decide as Hblock; [|intros [= <-]; by split_and!; try left].
    destruct Hblock as [Hne Hmod].
    destruct (last (m_cache s)) as [b|]; [|done].
    intros Hmk. apply bind_Done_inv in Hmk as ([c data] & Hloop & Hmk).
    injection Hmk as <-. simpl.
    pose proof (for_loop_length_inv _ _ _ _ _ _ _ _ Hloop) as Hlen.
    split_and!; try done.
    + intros Hf. by apply for_loop_keeps_inv in Hloop.
    + right. exists c. by split_and!.
Qed.

Lemma make_cache_Done s :
  0 < m_cacheGap ->
  m_dataLimit s <= length (m_data s) ->
  ~ back_of_empty_cache m_cacheGap s ->
  is_Done (make_cache m_cacheGap s).
Proof.
  intros Hg HdL Hback. unfold make_cache, is_Done.
  destruct (decide (length (m_data s) = m_cacheGap)) as [Hfull|Hfull].
  - destruct (m_data s) as [|d0 r] eqn:Hdata; [simpl in *; lia|].
    destruct (for_range_Done (m_function s) d0 1 (length (d0 :: r))
                (d0 :: r)) as (c & data & -> & _); [simpl; lia|done|].
    rewrite bind_Done. eauto.
  - case_bool_decide as Hblock; [|eauto].
    destruct Hblock as [Hne Hmod].
    destruct (last (m_cache s)) as [b|] eqn:Hlast.
    + destruct (for_range_Done (m_function s) b
                  (getIteratorPastCache m_cacheGap s)
                  (length (m_data s)) (m_data s)) as (c & data & -> & _).
      { unfold getIteratorPastCache. lia. }
      { done. }
      rewrite bind_Done. eauto.
    + apply last_None in Hlast. exfalso. apply Hback. by split_and!.
Qed.

Lemma make_cache_back_of_empty_cache s :
  back_of_empty_cache m_cacheGap s ->
  make_cache m_cacheGap s = Undefined.
Proof.
  intros (Hc & Hne & Hmod & Hfull). unfold make_cache.
  rewrite decide_False by done.
  rewrite bool_decide_eq_true_2 by done. by rewrite Hc.
Qed.
End Appending.

Section AppendingProperties.
Context {T : Type}.
Variable m_cacheGap : nat.
Implicit Types s : @CachedResource T.

Lemma emplaceBack_skip_cache x s s' :
  emplaceBack m_cacheGap x s = Done s' ->
  exists s2, s' = skip_cache x s2 /\ m_function s2 = m_function s.
Proof.
  unfold emplaceBack. destruct (m_underUndo s).
  - intros Hs'. apply bind_Done_inv in Hs' as (s1 & Hclear & Hs').
    assert (m_function s1 = m_function s) as Hf1.
    { unfold clearUndo in Hclear.
      destruct (dataLimit_singular s); [done|].
      apply bind_Done_inv in Hclear as (d & _ & Hclear).
      apply bind_Done_inv in Hclear as (c & _ & Hclear).
      by injection Hclear as <-. }
    case_decide.
    + injection Hs' as <-. eauto.
    + apply bind_Done_inv in Hs' as (s2 & Hmk & Hs'). injection Hs' as <-.
      apply make_cache_inv in Hmk as (_ & _ & _ & Hf2 & _).
      exists s2. split; [done|congruence].
  - intros Hs'. apply bind_Done_inv in Hs' as (s2 & Hmk & Hs').
    injection Hs' as <-.
    apply make_cache_inv in Hmk as (_ & _ & _ & Hf2 & _). eauto.
Qed.

(** X1. Once [m_dataLimit] is assigned, as it is in undo mode where
    [emplaceBack] calls it, [clearUndo] is defined exactly when both cursors
    are inside their containers.  It then drops what lies at or after the
    cursors, leaves undo mode, and both limits are [end()] afterwards;
    otherwise one of its loops pops an empty deque. *)
Theorem clearUndo_spec s :
  dataLimit_singular s = false ->
  (in_bounds s ->
   exists s1,
     clearUndo s = Done s1
     /\ m_data s1 = take (historyCursor s) (m_data s)
     /\ m_cache s1 = take (checkpointCursor s) (m_cache s)
     /\ historyCursor s1 = length (m_data s1)
     /\ checkpointCursor s1 = length (m_cache s1)
     /\ underUndo s1 = false)
  /\ (~ in_bounds s -> clearUndo s = Undefined).
Proof.
  intros Hset. split; [|apply clearUndo_out_of_bounds].
  intros Hb. rewrite (clearUndo_Done s Hset Hb). eexists. split; [done|].
  destruct Hb as [Hd Hc]. cbn [set_underUndo set_cache set_data m_data m_cache].
  unfold historyCursor, underUndo in *. cbn [m_dataLimit m_underUndo].
  rewrite !length_take_le by done. split_and!; try done.
  unfold checkpointCursor, getNumCaches in *. cbn [m_cache m_cacheLimit].
  destruct (m_cache s) as [|c0 cache]; [done|].
  simpl. by destruct (m_cacheLimit s).
Qed.

(** X2. In undo mode [emplaceBack] is defined exactly when both cursors are
    inside their containers; otherwise its behaviour is undefined. *)
Theorem emplaceBack_in_undo_mode_defined x s :
  0 < m_cacheGap ->
  underUndo s = true ->
  (is_Done (emplaceBack m_cacheGap x s) <-> in_bounds s)
  /\ (~ in_bounds s -> emplaceBack m_cacheGap x s = Undefined).
Proof.
  intros Hg Hu. unfold underUndo in Hu. split; [split|].
  - intros [s' Hs']. unfold emplaceBack in Hs'. rewrite Hu in Hs'.
    apply bind_Done_inv in Hs' as (s1 & Hclear & _).
    by apply clearUndo_Done_inv in Hclear.
  - intros Hb. rewrite (emplaceBack_underUndo m_cacheGap Hg s x Hu Hb).
    by eexists.
  - intros Hout. unfold emplaceBack.
    by rewrite Hu, (clearUndo_out_of_bounds s Hout).
Qed.

(** X3. Outside undo mode, with [m_dataLimit] inside the history,
    [emplaceBack] is defined unless the cache is empty while the history is
    a whole number of blocks, two or more: then it copies [m_cache.back()]
    of an empty deque. *)
Theorem emplaceBack_outside_undo_mode_defined x s :
  0 < m_cacheGap ->
  underUndo s = false ->
  historyCursor s <= length (m_data s) ->
  (is_Done (emplaceBack m_cacheGap x s)
   <-> ~ back_of_empty_cache m_cacheGap s)
  /\ (back_of_empty_cache m_cacheGap s ->
      emplaceBack m_cacheGap x s = Undefined).
Proof.
  intros Hg Hu HdL. unfold underUndo, historyCursor in *.
  unfold emplaceBack. rewrite Hu. split; [split|].
  - intros [s' Hs'] Hback.
    by rewrite (make_cache_back_of_empty_cache m_cacheGap s Hback) in Hs'.
  - intros Hback.
    destruct (make_cache_Done m_cacheGap s Hg HdL Hback) as [s2 ->].
    rewrite bind_Done. by eexists.
  - intros Hback.
    by rewrite (make_cache_back_of_empty_cache m_cacheGap s Hback).
Qed.

(** X4. Whenever [emplaceBack] returns, the new element is the last of the
    history and the one [getLast] returns, [m_dataLimit] is [end()], the
    object is out of undo mode, and [redo] has nothing to do. *)
Theorem emplaceBack_result x s s' :
  emplaceBack m_cacheGap x s = Done s' ->
  getLast s' = Done x
  /\ last (getUnderlying s') = Some x
  /\ historyCursor s' = length (m_data s')
  /\ underUndo s' = false
  /\ redo m_cacheGap s' = (false, s')
  /\ m_function s' = m_function s.
Proof.
  intros Hs'.
  pose proof (emplaceBack_leaves_undo _ _ _ _ Hs') as Hu.
  destruct (emplaceBack_skip_cache x s s' Hs') as (s2 & -> & Hf).
  unfold getLast, getUnderlying, historyCursor, underUndo, skip_cache.
  cbn [set_data set_dataLimit m_data m_dataLimit m_function].
  rewrite length_app, last_snoc. simpl length.
  replace (length (m_data s2) + 1) with (S (length (m_data s2))) by lia.
  rewrite lookup_app_r, Nat.sub_diag by lia. simpl.
  split_and!; try done. by apply redo_idle.
Qed.

(** X5. Outside undo mode [emplaceBack] only adds: the history grows by
    exactly one element, the stored checkpoints stay where they are with at
    most one new checkpoint after them, and, when the combiner leaves its
    second argument alone, the layers stored before are unchanged. *)
Theorem emplaceBack_outside_undo_mode_adds x s s' :
  underUndo s = false ->
  emplaceBack m_cacheGap x s = Done s' ->
  length (m_data s') = S (length (m_data s))
  /\ m_cache s `prefix_of` m_cache s'
  /\ length (m_cache s') <= S (length (m_cache s))
  /\ (keeps_element (m_function s) -> m_data s' = m_data s ++ [x]).
Proof.
  unfold underUndo, emplaceBack. intros -> Hs'.
  apply bind_Done_inv in Hs' as (s2 & Hmk & Hs'). injection Hs' as <-.
  apply make_cache_inv in Hmk as (Hlen & _ & _ & _ & Hkeep & Hcache).
  unfold skip_cache. cbn [set_data set_dataLimit m_data m_cache].
  rewrite length_app. simpl. split_and!.
  - lia.
  - destruct Hcache as [[-> _]|(c & -> & _)]; [done|by apply prefix_app_r].
  - destruct Hcache as [[-> _]|(c & -> & _)]; [lia|].
    rewrite length_app. simpl. lia.
  - intros Hf. by rewrite Hkeep.
Qed.
End AppendingProperties.

(** ** [undo] and [redo]: moving the cursors only *)

Section CursorMoves.
Context {T : Type}.
Variable m_cacheGap : nat.
Implicit Types s : @CachedResource T.

Lemma undo_at_begin s :
  m_dataLimit s = 0 ->
  (undo_body m_cacheGap s).1 = false /\ m_dataLimit (undo_body m_cacheGap s).2 = 0.
Proof.
  destruct s as [data cache dL cL uu f]. simpl. intros ->. by unfold undo_body.
Qed.

Lemma redo_store s :
  let s' := (redo m_cacheGap s).2 in
  m_data s' = m_data s /\ m_cache s' = m_cache s
  /\ m_function s' = m_function s.
Proof.
  destruct s as [data cache dL cL uu f]. unfold redo. simpl.
  destruct uu; simpl; [|done].
  destruct (bool_decide (dL + 1 = length data)); simpl;
    by case_bool_decide.
Qed.

Lemma run_cursor_calls (cs : list call) s :
  dataLimit_singular s = false ->
  Forall cursor_call cs ->
  exists s',
    run m_cacheGap cs s = Done s'
    /\ m_data s' = m_data s
    /\ m_cache s' = m_cache s
    /\ m_function s' = m_function s.
Proof.
  intros Hset Hcs. revert s Hset.
  induction Hcs as [|c cs Hc _ IH]; intros s Hset.
  - by exists s.
  - rewrite run_cons. destruct Hc as [-> | ->].
    + rewrite (step_Undo m_cacheGap s Hset), bind_Done.
      destruct (IH (undo_body m_cacheGap s).2
                  (dataLimit_singular_undo_body m_cacheGap s))
        as (s' & -> & Hd & Hc & Hf).
      destruct (undo_store m_cacheGap s) as (Hd1 & Hc1 & Hf1 & _).
      exists s'. split_and!; [done|congruence..].
    + unfold step. rewrite bind_Done.
      destruct (IH (redo m_cacheGap s).2
                  (dataLimit_singular_redo m_cacheGap s Hset))
        as (s' & -> & Hd & Hc & Hf).
      destruct (redo_store s) as (Hd1 & Hc1 & Hf1).
      exists s'. split_and!; [done|congruence..].
Qed.

Lemma undo_body_after_redo s :
  m_underUndo s = true ->
  undo_body m_cacheGap (redo m_cacheGap s).2 = (true, s).
Proof.
  destruct s as [data cache dL cL uu f]. simpl.
  intros ->. unfold redo, undo_body, noCaches, getNumCaches. simpl.
  destruct (bool_decide (dL + 1 = length data)); simpl;
    (case_bool_decide as Hinc; simpl;
     [destruct Hinc as [Hne Hmod]|];
     rewrite decide_False by lia; simpl;
     destruct cache as [|c0 cache']; simpl;
     repeat case_bool_decide; simpl;
     try done; try lia;
     rewrite ?Nat.add_sub; try done; exfalso; naive_solver lia).
Qed.

Lemma undo_body_calls_saturate (k : nat) s :
  let r := calls (undo_body m_cacheGap) k s in
  r.1 = repeat true (Nat.min k (historyCursor s))
        ++ repeat false (k - historyCursor s)
  /\ historyCursor r.2 = historyCursor s - k
  /\ getUnderlying r.2 = getUnderlying s
  /\ m_cache r.2 = m_cache s
  /\ (0 < k -> underUndo r.2 = true).
Proof.
  unfold historyCursor, getUnderlying, underUndo.
  revert s. induction k as [|k IH]; intros s.
  - simpl. split_and!; try done; lia.
  - rewrite calls_S. cbv zeta. cbn [fst snd].
    destruct (IH (undo_body m_cacheGap s).2) as (Hbs & HdL & Hd & Hc & Hu).
    destruct (undo_store m_cacheGap s) as (Hd1 & Hc1 & _ & Hu1 & _).
    rewrite Hbs, HdL, Hd, Hc.
    destruct (m_dataLimit s) as [|d] eqn:Hcur.
    + destruct (undo_at_begin s Hcur) as [-> ->].
      rewrite Nat.min_0_r. simpl. rewrite Nat.sub_0_r.
      split_and!; try done.
      intros _. destruct k; [exact Hu1|]. apply Hu. lia.
    + destruct (undo_pos m_cacheGap s ltac:(lia)) as [-> ->].
      rewrite Hcur. simpl. rewrite Nat.sub_0_r.
      split_and!; try done.
      intros _. destruct k; [exact Hu1|]. apply Hu. lia.
Qed.

(** X6. On a buffer with a non-empty history, a sequence of [undo] and
    [redo] calls always returns and never touches the containers: the
    history seen through [getUnderlying], the stored checkpoints and the
    combiner are what they were. *)
Theorem cursor_moves_keep_containers (cs : list call) s :
  m_data s <> [] ->
  Forall cursor_call cs ->
  exists s',
    run m_cacheGap cs s = Done s'
    /\ getUnderlying s' = getUnderlying s
    /\ m_cache s' = m_cache s
    /\ m_function s' = m_function s.
Proof.
  intros Hne. apply run_cursor_calls.
  by apply dataLimit_singular_data.
Qed.

(** X7. In undo mode, [undo] right after [redo] returns [true] and gives
    back the very object [redo] was called on: containers, both limits and
    the flag. *)
Theorem undo_after_redo s :
  underUndo s = true ->
  undo m_cacheGap (redo m_cacheGap s).2 = Done (true, s).
Proof.
  unfold underUndo. intros Hu.
  rewrite undo_Done.
  - by rewrite undo_body_after_redo.
  - by apply dataLimit_singular_redo, dataLimit_singular_underUndo.
Qed.

(** X8. On a buffer with a non-empty history [undo] may be called any
    number of times: of [k] calls in a row the first [historyCursor] ones
    (or all [k]) return [true] and the others [false], the history cursor
    ends [k] lower, or at [0], the containers are untouched, and the object
    is in undo mode. *)
Theorem undo_calls_saturate (k : nat) s :
  m_data s <> [] ->
  exists r,
    defined_calls (undo m_cacheGap) k s = Done r
    /\ r.1 = repeat true (Nat.min k (historyCursor s))
             ++ repeat false (k - historyCursor s)
    /\ historyCursor r.2 = historyCursor s - k
    /\ getUnderlying r.2 = getUnderlying s
    /\ m_cache r.2 = m_cache s
    /\ (0 < k -> underUndo r.2 = true).
Proof.
  intros Hne. eexists. split.
  - by apply defined_calls_undo, dataLimit_singular_data.
  - apply undo_body_calls_saturate.
Qed.
End CursorMoves.

(** ** What holds in every reachable object *)

Lemma block_strict g n d :
  0 < g -> n * g <= d -> d mod g <> 0 -> n * g <= d - 1.
Proof.
  intros Hg Hle Hmod. destruct (decide (n * g = d)) as [<-|]; [|lia].
  by rewrite Nat.Div0.mod_mul in Hmod.
Qed.

Lemma block_next g n d :
  0 < g -> n * g <= d -> (d + 1) mod g = 0 -> (n + 1) * g <= d + 1.
Proof.
  intros Hg Hle Hmod. pose proof (Nat.div_mod_eq (d + 1) g) as Hd.
  rewrite Hmod in Hd. set (q := (d + 1) / g) in *.
  assert (n < q) as Hlt.
  { destruct (decide (n < q)) as [|Hge]; [done|].
    assert (q * g <= n * g) by (apply Nat.mul_le_mono_r; lia). lia. }
  assert ((n + 1) * g <= q * g) by (apply Nat.mul_le_mono_r; lia). lia.
Qed.

Lemma block_count g n d : 0 < g -> n * g <= d -> n <= d / g.
Proof.
  intros Hg Hle. apply Nat.div_le_lower_bound; [lia|].
  by rewrite Nat.mul_comm.
Qed.

Section Reachable.
Context {T : Type}.
Variable m_cacheGap : nat.
Hypothesis cacheGap_positive : 0 < m_cacheGap.
Implicit Types s : @CachedResource T.

Lemma reach_inv_make (f : @Function T) : reach_inv m_cacheGap (make f).
Proof.
  unfold reach_inv, make. simpl. split_and!; try done.
  by rewrite Nat.Div0.div_0_l.
Qed.

Lemma undo_numCaches s :
  m_dataLimit s <> 0 ->
  getNumCaches (undo_body m_cacheGap s).2 =
    if decide (0 < getNumCaches s /\ m_dataLimit s mod m_cacheGap = 0)
    then getNumCaches s - 1 else getNumCaches s.
Proof.
  destruct s as [data cache dL cL uu f]. simpl. intros Hpos.
  unfold undo_body, noCaches, getNumCaches. simpl.
  rewrite decide_False by done.
  destruct cache as [|c0 cache']; simpl;
    repeat case_bool_decide; simpl; repeat case_decide;
    try done; try lia.
Qed.

Lemma reach_inv_undo s :
  reach_inv m_cacheGap s -> reach_inv m_cacheGap (undo_body m_cacheGap s).2.
Proof.
  intros (HC & HD & HA & HB).
  destruct (undo_store m_cacheGap s) as (Hd & Hc & _ & Hu & HcL).
  unfold reach_inv. rewrite Hd, Hc, Hu.
  destruct (decide (m_dataLimit s = 0)) as [Hz|Hpos].
  - destruct (undo_at_begin m_cacheGap s Hz) as [_ HdL]. rewrite HdL.
    assert (getNumCaches (undo_body m_cacheGap s).2 = 0) as ->.
    { unfold getNumCaches in *. rewrite Hc.
      destruct (m_cache s); [done|]. rewrite Hz in HB.
      assert (m_cacheLimit s = 0) by nia. lia. }
    split_and!; try done; try lia.
    intros Hne. split; [lia|]. intros _. destruct (m_data s); simpl; [done|lia].
  - destruct (undo_pos m_cacheGap s ltac:(lia)) as [_ HdL].
    rewrite HdL, (undo_numCaches s Hpos).
    split_and!; try done.
    + intros Hne. destruct (HD Hne) as [Hle _]. split; [lia|]. intros _. lia.
    + case_decide as Hdec.
      * destruct Hdec as [Hnc Hmod].
        pose proof (Nat.div_mod_eq (m_dataLimit s) m_cacheGap) as Hdm.
        rewrite Hmod in Hdm.
        assert (getNumCaches s * m_cacheGap
                = (getNumCaches s - 1) * m_cacheGap + m_cacheGap)
          as Hsplit by nia.
        lia.
      * destruct (decide (m_dataLimit s mod m_cacheGap = 0)) as [Hmod|Hmod].
        -- assert (getNumCaches s = 0) as -> by (apply dec_stable; lia).
           simpl. lia.
        -- by apply block_strict.
Qed.

Lemma redo_numCaches s :
  m_underUndo s = true ->
  getNumCaches (redo m_cacheGap s).2 =
    if decide (m_cache s <> []
               /\ (m_dataLimit s + 1) mod m_cacheGap = 0)
    then m_cacheLimit s + 1 else getNumCaches s.
Proof.
  destruct s as [data cache dL cL uu f]. simpl. intros ->.
  unfold redo, getNumCaches. simpl.
  destruct (bool_decide (dL + 1 = length data)); simpl;
    case_bool_decide; case_decide; simpl; try done;
    destruct cache; simpl; tauto.
Qed.

Lemma reach_inv_redo s :
  reach_inv m_cacheGap s -> reach_inv m_cacheGap (redo m_cacheGap s).2.
Proof.
  intros Hinv. destruct (m_underUndo s) eqn:Hu.
  2:{ by rewrite redo_idle. }
  destruct Hinv as (HC & HD & HA & HB).
  destruct (redo_step m_cacheGap s Hu) as (HdL & Hd & Hc & _ & _ & Hu').
  unfold reach_inv. rewrite Hd, Hc, HdL, (redo_numCaches s Hu).
  split_and!; try done.
  - intros Hflag. by apply Hu'.
  - intros Hne. destruct (HD Hne) as [_ Hlt]. specialize (Hlt Hu).
    split; [lia|]. intros Hflag.
    destruct (decide (m_dataLimit s + 1 = length (m_data s))) as [Hend|];
      [|lia].
    apply Hu' in Hend. congruence.
  - case_decide as Hdec.
    + destruct Hdec as [Hne Hmod].
      assert (getNumCaches s = m_cacheLimit s) as Hnc.
      { unfold getNumCaches. by destruct (m_cache s). }
      rewrite Hnc in HB. by apply block_next.
    + lia.
Qed.

Lemma reach_inv_emplaceBack x s s' :
  emplaceBack m_cacheGap x s = Done s' ->
  reach_inv m_cacheGap s -> reach_inv m_cacheGap s'.
Proof.
  intros Hs' (HC & HD & HA & HB).
  destruct (m_underUndo s) eqn:Hu.
  - assert (in_bounds s) as Hb.
    { unfold emplaceBack in Hs'. rewrite Hu in Hs'.
      apply bind_Done_inv in Hs' as (s1 & Hclear & _).
      by apply clearUndo_Done_inv in Hclear. }
    rewrite (emplaceBack_underUndo m_cacheGap cacheGap_positive s x Hu Hb)
      in Hs'.
    injection Hs' as <-. destruct Hb as [Hd Hc].
    unfold historyCursor, checkpointCursor in *.
    unfold reach_inv. cbn [m_data m_cache m_dataLimit m_underUndo].
    rewrite length_app, !length_take_le by done. simpl length.
    replace (m_dataLimit s + 1 - 1) with (m_dataLimit s) by lia.
    split_and!; try done; try (intros _; split; [lia|done]).
    + by apply block_count.
    + unfold getNumCaches in *. cbn [m_cache m_cacheLimit].
      destruct (m_cache s) as [|c0 cache]; simpl; [lia|].
      destruct (m_cacheLimit s); simpl in *; lia.
  - unfold emplaceBack in Hs'. rewrite Hu in Hs'.
    apply bind_Done_inv in Hs' as (s2 & Hmk & Hs'). injection Hs' as <-.
    apply make_cache_inv in Hmk as (Hlen & HdL & Hu2 & _ & _ & Hcache).
    rewrite Hu in Hu2. specialize (HC eq_refl).
    pose proof (div_pred m_cacheGap (length (m_data s)) cacheGap_positive)
      as Hdiv.
    unfold reach_inv, skip_cache, getNumCaches in *.
    cbn [set_data set_dataLimit m_data m_cache m_dataLimit m_cacheLimit
         m_underUndo].
    rewrite length_app, Hlen. simpl length.
    replace (length (m_data s) + 1 - 1) with (length (m_data s)) by lia.
    split_and!; try done.
    + intros _. split; [lia|]. intros Hflag. congruence.
    + destruct Hcache as [[-> _]|(c & -> & _ & Hne & Hmod)].
      * destruct (decide _); lia.
      * rewrite length_app. simpl. rewrite decide_True in Hdiv; [lia|].
        split; [|done]. destruct (m_data s); simpl; [done|lia].
    + destruct Hcache as [[-> ->]|(c & Hc2 & -> & Hne & Hmod)].
      * lia.
      * rewrite Hc2, length_app. simpl.
        rewrite decide_True in Hdiv.
        2:{ split; [|done]. destruct (m_data s); simpl; [done|lia]. }
        destruct (m_cache s ++ [c]) eqn:Happ; [lia|].
        pose proof (Nat.Div0.mul_div_le (length (m_data s)) m_cacheGap).
        nia.
Qed.

Lemma reach_inv_run (cs : list call) s s' :
  run m_cacheGap cs s = Done s' ->
  reach_inv m_cacheGap s -> reach_inv m_cacheGap s'.
Proof.
  revert s. induction cs as [|c cs IH]; intros s Hrun Hinv.
  - by injection Hrun as <-.
  - rewrite run_cons in Hrun.
    apply bind_Done_inv in Hrun as (s1 & Hstep & Hrun).
    apply (IH s1 Hrun).
    destruct c as [x| |].
    + by apply (reach_inv_emplaceBack x s).
    + apply step_Undo_inv in Hstep as [_ ->]. by apply reach_inv_undo.
    + injection Hstep as <-. by apply reach_inv_redo.
Qed.

Lemma reachable_reach_inv (f : @Function T) s :
  reachable m_cacheGap f s -> reach_inv m_cacheGap s.
Proof.
  intros [cs Hrun]. apply (reach_inv_run cs _ _ Hrun), reach_inv_make.
Qed.
End Reachable.

(** The only reachable object whose [m_dataLimit] is singular is the newly
    constructed one: once assigned, the limit stays an iterator into
    [m_data] under every call that returns. *)
Section Assigned.
Context {T : Type}.
Variable m_cacheGap : nat.
Implicit Types s : @CachedResource T.

Lemma dataLimit_singular_emplaceBack x s s' :
  emplaceBack m_cacheGap x s = Done s' -> dataLimit_singular s' = false.
Proof.
  intros Hs'. destruct (emplaceBack_skip_cache m_cacheGap x s s' Hs')
    as (s2 & -> & _).
  apply dataLimit_singular_data. unfold skip_cache. simpl.
  by destruct (m_data s2).
Qed.

Lemma dataLimit_singular_step (c : call) s s' :
  dataLimit_singular s = false ->
  step m_cacheGap c s = Done s' -> dataLimit_singular s' = false.
Proof.
  intros Hset Hstep. destruct c as [x| |].
  - by apply (dataLimit_singular_emplaceBack x s).
  - apply step_Undo_inv in Hstep as [_ ->].
    apply dataLimit_singular_undo_body.
  - injection Hstep as <-. by apply dataLimit_singular_redo.
Qed.

Lemma run_singular (f : @Function T) (cs : list call) s0 s :
  s0 = make f \/ dataLimit_singular s0 = false ->
  run m_cacheGap cs s0 = Done s ->
  s = make f \/ dataLimit_singular s = false.
Proof.
  revert s0. induction cs as [|c cs IH]; intros s0 Hs0 Hrun.
  - by injection Hrun as <-.
  - rewrite run_cons in Hrun.
    apply bind_Done_inv in Hrun as (s1 & Hstep & Hrun).
    apply (IH s1); [|done].
    destruct Hs0 as [->|Hset].
    + destruct c as [x| |].
      * right. by apply (dataLimit_singular_emplaceBack x (make f)).
      * by apply step_Undo_inv in Hstep as [? _].
      * left. by injection Hstep as <-.
    + right. by apply (dataLimit_singular_step c s0).
Qed.

(** The calls on a newly constructed object, whatever the two placeholders
    hold: [undo], both forms of [reduceTo] and [getLast] are undefined;
    [redo] returns [false], [getLastCache] returns [nullptr], and
    [emplaceBack] stores the first layer and assigns [m_dataLimit]. *)
Lemma calls_on_new_object (f : @Function T) (n m : nat) (x value : T) :
  let s := set_cacheLimit m (set_dataLimit n (make f)) in
  undo m_cacheGap s = Undefined
  /\ reduceTo m_cacheGap value s = Undefined
  /\ (forall (A : Type) (h : A -> T -> A * T) (a : A),
        reduceToF2 m_cacheGap h a s = Undefined)
  /\ getLast s = Undefined
  /\ redo m_cacheGap s = (false, s)
  /\ getLastCache s = Done None
  /\ underUndo s = false
  /\ (0 < m_cacheGap ->
      emplaceBack m_cacheGap x s =
        Done {| m_data := [x]; m_cache := []; m_dataLimit := 1;
                m_cacheLimit := m; m_underUndo := false;
                m_function := f |}).
Proof.
  cbv zeta. split_and!; try done.
  - unfold getLast. simpl. by destruct n.
  - intros Hg. unfold emplaceBack, make_cache. simpl.
    by rewrite decide_False by lia.
Qed.

Lemma reachable_singular (f : @Function T) s :
  reachable m_cacheGap f s -> dataLimit_singular s = true -> s = make f.
Proof.
  intros [cs Hrun] Hsing.
  destruct (run_singular f cs (make f) s) as [->|Hset]; try done; [by left|].
  congruence.
Qed.
End Assigned.

Section ReachableProperties.
Context {T : Type}.
Variable m_cacheGap : nat.
Implicit Types s : @CachedResource T.

(** X9. In every reachable object with a non-empty history, the history
    cursor is inside the history: at its end outside undo mode, strictly
    before its end in undo mode. *)
Theorem reachable_historyCursor (f : @Function T) s :
  0 < m_cacheGap ->
  reachable m_cacheGap f s ->
  m_data s <> [] ->
  (underUndo s = false -> historyCursor s = length (m_data s))
  /\ historyCursor s <= length (m_data s)
  /\ (underUndo s = true -> historyCursor s < length (m_data s)).
Proof.
  intros Hg Hreach Hne.
  destruct (reachable_reach_inv m_cacheGap Hg f s Hreach) as (HC & HD & _).
  destruct (HD Hne) as [Hle Hlt]. by split_and!.
Qed.

(** X10. In every reachable object with a non-empty history and a positive
    history cursor [getLast] returns an element, the one at position
    [historyCursor - 1]; outside undo mode it is the last element of the
    history. *)
Theorem reachable_getLast (f : @Function T) s :
  0 < m_cacheGap ->
  reachable m_cacheGap f s ->
  m_data s <> [] ->
  0 < historyCursor s ->
  exists x,
    getLast s = Done x
    /\ m_data s !! (historyCursor s - 1) = Some x
    /\ (underUndo s = false -> last (m_data s) = Some x).
Proof.
  intros Hg Hreach Hne Hpos.
  destruct (reachable_reach_inv m_cacheGap Hg f s Hreach) as (HC & HD & _).
  destruct (HD Hne) as [Hle _].
  unfold historyCursor, underUndo, getLast in *.
  destruct (m_dataLimit s) as [|i] eqn:HdL; [lia|].
  replace (S i - 1) with i by lia.
  destruct (lookup_lt_is_Some_2 (m_data s) i) as [x Hx]; [lia|].
  exists x. rewrite Hx. split_and!; try done.
  intros Hu. rewrite last_lookup, <- (HC Hu). done.
Qed.

(** X11. In every reachable object with a non-empty history, the blocks
    counted by the checkpoint cursor lie before the history cursor, so the
    replay of [reduceTo] starts exactly after them ([std::min] in
    [getIteratorPastCache] always takes the offset); and no more
    checkpoints are stored than there are full blocks before the last
    element. *)
Theorem reachable_checkpoint_blocks (f : @Function T) s :
  0 < m_cacheGap ->
  reachable m_cacheGap f s ->
  m_data s <> [] ->
  checkpointCursor s * m_cacheGap <= historyCursor s
  /\ getIteratorPastCache m_cacheGap s = checkpointCursor s * m_cacheGap
  /\ length (m_cache s) <= (length (m_data s) - 1) / m_cacheGap.
Proof.
  intros Hg Hreach _.
  destruct (reachable_reach_inv m_cacheGap Hg f s Hreach)
    as (_ & _ & HA & HB).
  unfold checkpointCursor, historyCursor, getIteratorPastCache.
  split_and!; try done. lia.
Qed.

(** X12. On a non-empty history with both cursors inside their containers
    both forms of [reduceTo] return: every element they dereference
    exists. *)
Theorem reduceTo_defined_in_bounds s :
  m_data s <> [] ->
  in_bounds s ->
  (forall value, is_Done (reduceTo m_cacheGap value s))
  /\ (forall (A : Type) (f : A -> T -> A * T) (a : A),
        is_Done (reduceToF2 m_cacheGap f a s)).
Proof.
  intros Hne Hb. apply dataLimit_singular_data in Hne. split.
  - intros value. rewrite reduceTo_F2. by apply reduceToF2_Done.
  - intros A f a. by apply reduceToF2_Done.
Qed.
End ReachableProperties.

(** ** Histories whose size is no multiple of the gap *)

Section Synced.
Context {T : Type}.
Variable m_cacheGap : nat.
Hypothesis cacheGap_positive : 0 < m_cacheGap.
Implicit Types s : @CachedResource T.

Lemma undo_cacheLimit s :
  m_dataLimit s <> 0 ->
  m_cacheLimit (undo_body m_cacheGap s).2 =
    if decide (0 < getNumCaches s /\ m_dataLimit s mod m_cacheGap = 0)
    then m_cacheLimit s - 1 else m_cacheLimit s.
Proof.
  destruct s as [data cache dL cL uu f]. simpl. intros Hpos.
  unfold undo_body, noCaches, getNumCaches. simpl.
  rewrite decide_False by done.
  destruct cache as [|c0 cache']; simpl;
    repeat case_bool_decide; simpl; repeat case_decide;
    try done; try lia.
Qed.

Lemma redo_cacheLimit s :
  m_underUndo s = true ->
  m_cacheLimit (redo m_cacheGap s).2 =
    if decide (m_cache s <> []
               /\ (m_dataLimit s + 1) mod m_cacheGap = 0)
    then m_cacheLimit s + 1 else m_cacheLimit s.
Proof.
  destruct s as [data cache dL cL uu f]. simpl. intros ->.
  unfold redo. simpl.
  destruct (bool_decide (dL + 1 = length data)); simpl;
    case_bool_decide; case_decide; simpl; try done; tauto.
Qed.

Lemma cursors_synced_bounds s :
  cursors_synced m_cacheGap s ->
  m_dataLimit s <= length (m_data s)
  /\ getNumCaches s = m_dataLimit s / m_cacheGap
  /\ m_dataLimit s / m_cacheGap <= length (m_cache s).
Proof.
  intros (Hmod & Hlen & HcL & Htop & Hundo).
  assert (m_dataLimit s <= length (m_data s)) as Hle.
  { destruct (m_underUndo s); [specialize (Hundo eq_refl); lia|].
    by rewrite Htop. }
  assert (m_dataLimit s / m_cacheGap <= length (m_cache s)) as Hdiv.
  { rewrite Hlen. by apply Nat.Div0.div_le_mono. }
  split_and!; try done.
  unfold getNumCaches. destruct (m_cache s); simpl in *; lia.
Qed.

Lemma at_top_synced s :
  at_top m_cacheGap s ->
  length (m_data s) mod m_cacheGap <> 0 ->
  cursors_synced m_cacheGap s.
Proof.
  intros (HdL & HcL & Hlen & Hu) Hmod.
  pose proof (div_pred m_cacheGap (length (m_data s)) cacheGap_positive)
    as Hdiv.
  rewrite decide_False in Hdiv by (intros [_ ?]; done).
  unfold cursors_synced. rewrite Hu, HdL.
  split_and!; try done; try lia.
Qed.

Lemma cursors_synced_undo s :
  cursors_synced m_cacheGap s ->
  cursors_synced m_cacheGap (undo_body m_cacheGap s).2.
Proof.
  intros Hs. destruct (cursors_synced_bounds s Hs) as (Hle & Hnc & Hdiv).
  destruct Hs as (Hmod & Hlen & HcL & Htop & Hundo).
  destruct (undo_store m_cacheGap s) as (Hd & Hc & _ & Hu & _).
  assert (0 < length (m_data s)) as Hne.
  { destruct (length (m_data s)); [|lia].
    by rewrite Nat.Div0.mod_0_l in Hmod. }
  unfold cursors_synced. rewrite Hd, Hc, Hu.
  destruct (decide (m_dataLimit s = 0)) as [Hz|Hpos].
  - destruct (undo_at_begin m_cacheGap s Hz) as [_ HdL].
    assert (m_cacheLimit (undo_body m_cacheGap s).2 = m_cacheLimit s) as ->.
    { destruct s as [data cache dL cL uu f]. simpl in *. subst dL.
      by unfold undo_body. }
    rewrite HdL, HcL, Hz. split_and!; try done; try (intros _; lia).
  - destruct (undo_pos m_cacheGap s ltac:(lia)) as [_ HdL].
    rewrite HdL, (undo_cacheLimit s Hpos), Hnc.
    pose proof (div_pred m_cacheGap (m_dataLimit s) cacheGap_positive)
      as Hpred.
    split_and!; try done; [|intros _; lia].
    destruct (decide (m_dataLimit s mod m_cacheGap = 0)) as [Hm|Hm].
    + rewrite decide_True in Hpred by (split; [lia|done]).
      rewrite decide_True; [lia|]. split; [lia|done].
    + rewrite decide_False in Hpred by (intros [_ ?]; done).
      rewrite decide_False by (intros [_ ?]; done). lia.
Qed.

Lemma cursors_synced_redo s :
  cursors_synced m_cacheGap s ->
  cursors_synced m_cacheGap (redo m_cacheGap s).2.
Proof.
  intros Hs. destruct (m_underUndo s) eqn:Hu.
  2:{ by rewrite redo_idle. }
  destruct (cursors_synced_bounds s Hs) as (Hle & Hnc & Hdiv).
  destruct Hs as (Hmod & Hlen & HcL & Htop & Hundo).
  specialize (Hundo Hu).
  destruct (redo_step m_cacheGap s Hu) as (HdL & Hd & Hc & _ & _ & Hu').
  unfold cursors_synced.
  rewrite Hd, Hc, HdL, (redo_cacheLimit s Hu).
  pose proof (div_pred m_cacheGap (m_dataLimit s + 1) cacheGap_positive)
    as Hpred.
  replace (m_dataLimit s + 1 - 1) with (m_dataLimit s) in Hpred by lia.
  split_and!; try done.
  - destruct (decide ((m_dataLimit s + 1) mod m_cacheGap = 0)) as [Hm|Hm].
    + rewrite decide_True in Hpred by (split; [lia|done]).
      assert ((m_dataLimit s + 1) / m_cacheGap
              <= length (m_data s) / m_cacheGap) as Hmono
        by (apply Nat.Div0.div_le_mono; lia).
      rewrite decide_True; [lia|]. split; [|done].
      intros Hnil. rewrite Hnil in Hlen. simpl in Hlen. lia.
    + rewrite decide_False in Hpred by (intros [_ ?]; done).
      rewrite decide_False by (intros [_ ?]; done). lia.
  - intros Hflag. by apply Hu'.
  - intros Hflag.
    destruct (decide (m_dataLimit s + 1 = length (m_data s))) as [Hend|];
      [|lia].
    apply Hu' in Hend. congruence.
Qed.

Lemma cursors_synced_data s :
  cursors_synced m_cacheGap s -> m_data s <> [].
Proof.
  intros (Hmod & _) Hnil. rewrite Hnil in Hmod. simpl in Hmod.
  by rewrite Nat.Div0.mod_0_l in Hmod.
Qed.

Lemma cursors_synced_run (cs : list call) s :
  Forall cursor_call cs ->
  cursors_synced m_cacheGap s ->
  exists s',
    run m_cacheGap cs s = Done s'
    /\ cursors_synced m_cacheGap s'
    /\ m_data s' = m_data s /\ m_cache s' = m_cache s
    /\ m_function s' = m_function s.
Proof.
  intros Hcs. revert s. induction Hcs as [|c cs Hc _ IH]; intros s Hs.
  - by exists s.
  - rewrite run_cons.
    destruct Hc as [-> | ->];
      [rewrite (step_Undo m_cacheGap s
                  (dataLimit_singular_data s (cursors_synced_data s Hs)))
      |unfold step]; rewrite bind_Done.
    + destruct (IH _ (cursors_synced_undo s Hs))
        as (s' & -> & Hs' & Hd & Hc & Hf).
      destruct (undo_store m_cacheGap s) as (Hd1 & Hc1 & Hf1 & _).
      exists s'. split_and!; [done|done|congruence..].
    + destruct (IH _ (cursors_synced_redo s Hs))
        as (s' & -> & Hs' & Hd & Hc & Hf).
      destruct (redo_store m_cacheGap s) as (Hd1 & Hc1 & Hf1).
      exists s'. split_and!; [done|done|congruence..].
Qed.

(** Objects in step are determined by their containers, the history
    cursor and the flag. *)
Lemma cursors_synced_eq s s' :
  cursors_synced m_cacheGap s -> cursors_synced m_cacheGap s' ->
  m_data s' = m_data s -> m_cache s' = m_cache s ->
  m_function s' = m_function s ->
  m_dataLimit s' = m_dataLimit s -> m_underUndo s' = m_underUndo s ->
  s' = s.
Proof.
  intros (_ & _ & HcL & _) (_ & _ & HcL' & _) Hd Hc Hf HdL Hu.
  destruct s, s'. simpl in *. subst. done.
Qed.

Lemma cursors_synced_undo_redo s :
  cursors_synced m_cacheGap s ->
  m_dataLimit s <> 0 ->
  (undo_body m_cacheGap s).1 = true
  /\ (redo m_cacheGap (undo_body m_cacheGap s).2).2 = s.
Proof.
  intros Hs Hpos.
  destruct (undo_pos m_cacheGap s ltac:(lia)) as [Hb HdL].
  split; [done|].
  destruct (undo_store m_cacheGap s) as (Hd & Hc & Hf & Hu & _).
  pose proof (cursors_synced_undo s Hs) as Hs1.
  pose proof (cursors_synced_redo _ Hs1) as Hs2.
  destruct (redo_step m_cacheGap _ Hu) as (HdL2 & Hd2 & Hc2 & Hf2 & _ & Hu2).
  apply cursors_synced_eq; try done; try congruence; [lia|].
  destruct Hs as (_ & _ & _ & Htop & Hundo).
  rewrite HdL, Hd in Hu2.
  destruct (m_underUndo s) eqn:Hus.
  - specialize (Hundo eq_refl).
    destruct (m_underUndo (redo m_cacheGap (undo_body m_cacheGap s).2).2);
      [done|]. destruct Hu2 as [Hu2 _]. specialize (Hu2 eq_refl). lia.
  - specialize (Htop eq_refl). apply Hu2. lia.
Qed.
End Synced.

Section SyncedProperties.
Context {T : Type}.
Variable m_cacheGap : nat.
Implicit Types s : @CachedResource T.

Lemma reduceTo_synced (op : T -> T -> T) (value : T) s :
  0 < m_cacheGap ->
  (forall a b c, op a (op b c) = op (op a b) c) ->
  cursors_synced m_cacheGap s ->
  m_function s = combiner op ->
  checkpoints_of m_cacheGap op (m_data s) (m_cache s) ->
  reduceTo m_cacheGap value s = Done (fold_history op value s, s).
Proof.
  intros Hg Hassoc Hs Hf Hcp.
  destruct (cursors_synced_bounds m_cacheGap Hg s Hs) as (Hle & Hnc & Hdiv).
  pose proof (dataLimit_singular_data s (cursors_synced_data m_cacheGap s Hs))
    as Hset.
  destruct Hs as (_ & _ & HcL & _).
  pose proof (Nat.Div0.mul_div_le (m_dataLimit s) m_cacheGap) as Hblk.
  unfold fold_history, historyCursor, reduceTo, noCaches.
  rewrite Hset, Hnc. clear Hset.
  destruct s as [data cache dL cL uu f]. simpl in *. subst f cL.
  case_bool_decide as Hzero.
  - rewrite for_range_combiner by (done || lia).
    rewrite bind_Done, Nat.sub_0_r. done.
  - set (n := dL / m_cacheGap) in *.
    destruct (lookup_lt_is_Some_2 cache (n - 1)) as [b Hb]; [lia|].
    unfold getLastCache, noCaches. rewrite Hnc. cbn [m_cache m_cacheLimit].
    rewrite bool_decide_eq_false_2 by done.
    rewrite Hb, bind_Done. unfold deref_cache. cbn [m_cache].
    rewrite Hb, bind_Done. cbn [m_function]. unfold combiner at 1.
    cbv zeta. rewrite list_insert_id by done.
    unfold set_cache.
    cbn [m_cache m_data m_dataLimit m_function m_cacheLimit m_underUndo].
    unfold getIteratorPastCache. rewrite Hnc. cbn [m_dataLimit].
    rewrite Nat.min_r by lia.
    rewrite for_range_combiner by (done || lia).
    rewrite bind_Done.
    unfold set_data. cbn [m_cache m_data m_dataLimit m_function m_cacheLimit
                          m_underUndo].
    f_equal. f_equal.
    rewrite Hcp in Hb by lia.
    replace (n - 1 + 1) with n in Hb by lia.
    rewrite (foldl_checkpoint op value b _ _ Hassoc Hb).
    rewrite take_take_drop. f_equal. f_equal. lia.
Qed.

(** X13. After appending a number of layers that is no multiple of the
    gap, any sequence of [undo] and [redo] calls leaves both cursors inside
    their containers, with the checkpoint cursor at the number of full
    blocks before the history cursor. *)
Theorem cursors_in_step_off_block_boundary (f : @Function T) (l : list T)
    (cs : list call) :
  0 < m_cacheGap ->
  length l mod m_cacheGap <> 0 ->
  Forall cursor_call cs ->
  exists s0 s,
    run m_cacheGap (EmplaceBack <$> l) (make f) = Done s0
    /\ run m_cacheGap cs s0 = Done s
    /\ in_bounds s
    /\ checkpointCursor s = historyCursor s / m_cacheGap
    /\ m_data s = m_data s0 /\ m_cache s = m_cache s0.
Proof.
  intros Hg Hmod Hcs.
  destruct (run_emplaceBack_at_top m_cacheGap Hg l (make f)
              (make_at_top m_cacheGap f)) as (s0 & Hrun & Htop & Hlen & _).
  simpl in Hlen. rewrite <- Hlen in Hmod.
  pose proof (at_top_synced m_cacheGap Hg s0 Htop Hmod) as Hs0.
  destruct (cursors_synced_run m_cacheGap Hg cs s0 Hcs Hs0)
    as (s & Hruncs & Hs & Hd & Hc & _).
  destruct (cursors_synced_bounds m_cacheGap Hg s Hs) as (Hle & Hnc & Hdiv).
  exists s0, s. unfold in_bounds, checkpointCursor, historyCursor.
  split_and!; try done. lia.
Qed.

(** X14. Reduction equivalence where the number of appended layers is no
    multiple of the gap: after any sequence of [undo] and [redo] calls
    [reduceTo] with an associative combiner yields the fold of the layers
    before the history cursor, and leaves the object as it was. *)
Theorem reduceTo_off_block_boundary (op : T -> T -> T) (l : list T)
    (cs : list call) (value : T) :
  0 < m_cacheGap ->
  (forall a b c, op a (op b c) = op (op a b) c) ->
  length l mod m_cacheGap <> 0 ->
  Forall cursor_call cs ->
  exists s,
    run m_cacheGap ((EmplaceBack <$> l) ++ cs) (make (combiner op)) = Done s
    /\ historyCursor s <= length l
    /\ reduceTo m_cacheGap value s
       = Done (foldl op value (take (historyCursor s) l), s).
Proof.
  intros Hg Hassoc Hmod Hcs.
  destruct (run_emplaceBack_combiner m_cacheGap Hg op l)
    as (s0 & Hrun & Htop & Hf & Hd & Hcp).
  rewrite <- Hd in Hmod.
  pose proof (at_top_synced m_cacheGap Hg s0 Htop Hmod) as Hs0.
  destruct (cursors_synced_run m_cacheGap Hg cs s0 Hcs Hs0)
    as (s & Hruncs & Hs & Hds & Hcs' & Hfs).
  exists s. rewrite run_app, Hrun, bind_Done.
  destruct (cursors_synced_bounds m_cacheGap Hg s Hs) as (Hle & _).
  split; [done|]. split; [unfold historyCursor; congruence|].
  rewrite (reduceTo_synced op value s Hg Hassoc Hs); [| congruence |].
  - unfold fold_history. by rewrite Hds, Hd.
  - by rewrite Hds, Hcs', Hd.
Qed.

(** X15. Undo/redo symmetry where the number of appended layers is no
    multiple of the gap: wherever [undo] and [redo] calls have left the
    cursor, an [undo] with something to undo returns [true] and the [redo]
    after it gives back the very same object. *)
Theorem undo_redo_symmetry_off_block_boundary (f : @Function T)
    (l : list T) (cs : list call) :
  0 < m_cacheGap ->
  length l mod m_cacheGap <> 0 ->
  Forall cursor_call cs ->
  exists s,
    run m_cacheGap ((EmplaceBack <$> l) ++ cs) (make f) = Done s
    /\ (0 < historyCursor s ->
        exists u,
          undo m_cacheGap s = Done (true, u)
          /\ (redo m_cacheGap u).2 = s).
Proof.
  intros Hg Hmod Hcs.
  destruct (run_emplaceBack_at_top m_cacheGap Hg l (make f)
              (make_at_top m_cacheGap f)) as (s0 & Hrun & Htop & Hlen & _).
  simpl in Hlen. rewrite <- Hlen in Hmod.
  pose proof (at_top_synced m_cacheGap Hg s0 Htop Hmod) as Hs0.
  destruct (cursors_synced_run m_cacheGap Hg cs s0 Hcs Hs0)
    as (s & Hruncs & Hs & _).
  exists s. rewrite run_app, Hrun, bind_Done. split; [done|].
  unfold historyCursor. intros Hpos.
  destruct (cursors_synced_undo_redo m_cacheGap Hg s Hs ltac:(lia))
    as [Hb Hredo].
  exists (undo_body m_cacheGap s).2. split; [|done].
  rewrite (undo_Done m_cacheGap s
             (dataLimit_singular_data s (cursors_synced_data m_cacheGap s Hs))).
  destruct (undo_body m_cacheGap s) as [b u]. simpl in Hb. by rewrite Hb.
Qed.

Lemma run_undo_redo_synced (k : nat) s :
  0 < m_cacheGap ->
  cursors_synced m_cacheGap s ->
  k <= m_dataLimit s ->
  run m_cacheGap (repeat Undo k ++ repeat Redo k) s = Done s.
Proof.
  intros Hg. revert s. induction k as [|k IH]; intros s Hs Hk; [done|].
  change (repeat Redo (S k)) with (@Redo T :: repeat Redo k).
  rewrite (repeat_cons k (@Redo T)).
  change (repeat Undo (S k)) with (@Undo T :: repeat Undo k).
  rewrite <- app_comm_cons, run_cons.
  rewrite (step_Undo m_cacheGap s
             (dataLimit_singular_data s (cursors_synced_data m_cacheGap s Hs))),
    bind_Done.
  rewrite app_assoc, run_app.
  destruct (undo_pos m_cacheGap s ltac:(lia)) as [_ HdL].
  rewrite (IH _ (cursors_synced_undo m_cacheGap Hg s Hs)) by lia.
  rewrite bind_Done. simpl.
  by destruct (cursors_synced_undo_redo m_cacheGap Hg s Hs ltac:(lia))
    as [_ ->].
Qed.

(** X16. Round trip where the number of appended layers [N] is no multiple
    of the gap: [k <= N] times [undo] followed by [k] times [redo] gives
    back the object as it was after the appends. *)
Theorem undo_redo_round_trip (f : @Function T) (l : list T) (k : nat) :
  0 < m_cacheGap ->
  length l mod m_cacheGap <> 0 ->
  k <= length l ->
  exists s0,
    run m_cacheGap (EmplaceBack <$> l) (make f) = Done s0
    /\ run m_cacheGap (repeat Undo k ++ repeat Redo k) s0 = Done s0.
Proof.
  intros Hg Hmod Hk.
  destruct (run_emplaceBack_at_top m_cacheGap Hg l (make f)
              (make_at_top m_cacheGap f)) as (s0 & Hrun & Htop & Hlen & _).
  simpl in Hlen. rewrite <- Hlen in Hmod.
  pose proof (at_top_synced m_cacheGap Hg s0 Htop Hmod) as Hs0.
  exists s0. split; [done|]. apply run_undo_redo_synced; try done.
  destruct Htop as (-> & _). lia.
Qed.

(** X17. Whatever the number of appended layers, one [undo] right after
    the appends returns [true], and the [redo] after it returns [false] and
    gives back the object as it was after the appends. *)
Theorem undo_redo_after_appends (f : @Function T) (l : list T) :
  0 < m_cacheGap ->
  l <> [] ->
  exists s0 u,
    run m_cacheGap (EmplaceBack <$> l) (make f) = Done s0
    /\ undo m_cacheGap s0 = Done (true, u)
    /\ redo m_cacheGap u = (false, s0).
Proof.
  intros Hg Hl.
  destruct (run_emplaceBack_at_top m_cacheGap Hg l (make f)
              (make_at_top m_cacheGap f)) as (s0 & Hrun & Htop & Hlen & _).
  simpl in Hlen. exists s0, (undo_body m_cacheGap s0).2. split; [done|].
  assert (0 < length (m_data s0)) as Hpos.
  { rewrite Hlen. destruct l; simpl; [done|lia]. }
  assert (m_data s0 <> []) as Hne.
  { intros Hnil. rewrite Hnil in Hpos. simpl in Hpos. lia. }
  destruct Htop as (HdL & HcL & _ & Hu).
  destruct (undo_pos m_cacheGap s0 ltac:(lia)) as [Hb HdL1].
  split.
  { rewrite (undo_Done m_cacheGap s0 (dataLimit_singular_data s0 Hne)).
    destruct (undo_body m_cacheGap s0) as [b u]. simpl in Hb.
    by rewrite Hb. }
  destruct (undo_store m_cacheGap s0) as (Hd1 & Hc1 & Hf1 & Hu1 & _).
  pose proof (undo_cacheLimit m_cacheGap Hg s0 ltac:(lia)) as HcL1.
  destruct (redo_step m_cacheGap _ Hu1)
    as (HdL2 & Hd2 & Hc2 & Hf2 & Hb2 & Hu2).
  pose proof (redo_cacheLimit m_cacheGap _ Hu1) as HcL2.
  rewrite HdL1, Hd1 in Hb2, Hu2. rewrite HdL1, Hc1 in HcL2.
  replace (m_dataLimit s0 - 1 + 1) with (length (m_data s0)) in * by lia.
  destruct (redo m_cacheGap (undo_body m_cacheGap s0).2) as [b s2].
  cbn [fst snd] in *.
  assert (b = false) as -> by (by apply Hb2).
  assert (m_underUndo s2 = false) as Hflag by (by apply Hu2).
  f_equal.
  assert (m_cacheLimit s2 = m_cacheLimit s0) as HcLeq.
  { rewrite HcL2, HcL1. unfold getNumCaches. rewrite HdL.
    destruct (m_cache s0) as [|c0 cache'] eqn:Hcache; simpl in HcL |- *;
      repeat case_decide; try lia; exfalso; intuition (try done; lia). }
  assert (m_data s2 = m_data s0) as Ha by congruence.
  assert (m_cache s2 = m_cache s0) as Hb' by congruence.
  assert (m_function s2 = m_function s0) as Hc' by congruence.
  assert (m_dataLimit s2 = m_dataLimit s0) as Hd' by lia.
  assert (m_underUndo s2 = m_underUndo s0) as He' by congruence.
  clear -Ha Hb' Hc' Hd' He' HcLeq.
  destruct s0, s2. simpl in *. by subst.
Qed.
End SyncedProperties.

(** ** [getLastCache] after appends *)

(** X18. After appending [N] layers to a new buffer, [getLastCache] is
    [nullptr] while [N <= gap]; beyond that it points to the last stored
    checkpoint, number [(N - 1) / gap - 1], which holds the combiner-fold
    of the first [(N - 1) / gap * gap] layers. *)
Theorem getLastCache_after_appends {T : Type} (g : nat) (op : T -> T -> T)
    (l : list T) :
  0 < g ->
  exists s,
    run g (EmplaceBack <$> l) (make (combiner op)) = Done s
    /\ (length l <= g -> getLastCache s = Done None)
    /\ (g < length l ->
        exists b,
          getLastCache s = Done (Some ((length l - 1) / g - 1))
          /\ deref_cache s (Some ((length l - 1) / g - 1))
             = Done ((length l - 1) / g - 1, b)
          /\ checkpoint_fold op (take ((length l - 1) / g * g) l) = Some b).
Proof.
  intros Hg.
  destruct (run_emplaceBack_combiner g Hg op l)
    as (s & Hrun & (HdL & HcL & Hlen & Hu) & Hf & Hd & Hcp).
  exists s. split; [done|]. rewrite Hd in Hlen.
  unfold getLastCache, noCaches, getNumCaches, deref_cache. split.
  - intros Hle. rewrite Nat.div_small in Hlen by lia.
    apply length_zero_iff_nil in Hlen. by rewrite Hlen.
  - intros Hlt.
    assert (0 < (length l - 1) / g) as Hpos.
    { apply Nat.div_str_pos. lia. }
    rewrite <- Hlen in *.
    destruct (lookup_lt_is_Some_2 (m_cache s) (length (m_cache s) - 1))
      as [b Hb]; [lia|].
    exists b. rewrite HcL.
    destruct (m_cache s) as [|c0 cache] eqn:Hcache; [simpl in Hpos; lia|].
    rewrite <- Hcache in *.
    rewrite bool_decide_eq_false_2 by lia. rewrite Hb.
    split_and!; try done.
    rewrite Hcp in Hb by lia.
    by replace (length (m_cache s) - 1 + 1) with (length (m_cache s))
      in Hb by lia.
Qed.

(** ** The further properties at the configuration of the test *)

Lemma clearUndo_spec_witness :
  (dataLimit_singular after_undo_some_6_3 = false
   /\ in_bounds after_undo_some_6_3
   /\ exists s1, clearUndo after_undo_some_6_3 = Done s1
                 /\ m_data s1 = layers 3 /\ m_cache s1 = [])
  /\ (run test_gap (seven_layers_calls ++ [Undo]) (make adder)
        = Done seven_layers_undo
      /\ dataLimit_singular seven_layers_undo = false
      /\ ~ in_bounds seven_layers_undo
      /\ clearUndo seven_layers_undo = Undefined).
Proof.
  split.
  - assert (in_bounds after_undo_some_6_3) as Hb.
    { split; vm_compute; lia. }
    split; [reflexivity|]. split; [exact Hb|].
    destruct (proj1 (clearUndo_spec after_undo_some_6_3 eq_refl) Hb)
      as (s1 & Hs1 & Hd & Hc & _).
    exists s1. split; [exact Hs1|]. split; [rewrite Hd|rewrite Hc];
      reflexivity.
  - assert (~ in_bounds seven_layers_undo) as Hout.
    { intros [_ Hc]. vm_compute in Hc. lia. }
    split; [vm_compute; reflexivity|]. split; [reflexivity|].
    split; [exact Hout|].
    exact (proj2 (clearUndo_spec seven_layers_undo eq_refl) Hout).
Defined.

Lemma emplaceBack_in_undo_mode_defined_witness :
  0 < test_gap /\ underUndo after_undo_some_6_3 = true
  /\ in_bounds after_undo_some_6_3
  /\ is_Done (emplaceBack test_gap 7%Z after_undo_some_6_3).
Proof.
  assert (0 < test_gap) as Hg by (unfold test_gap; lia).
  assert (in_bounds after_undo_some_6_3) as Hb by (split; vm_compute; lia).
  split; [exact Hg|]. split; [reflexivity|]. split; [exact Hb|].
  exact (proj2 (proj1 (emplaceBack_in_undo_mode_defined test_gap 7%Z
                         after_undo_some_6_3 Hg eq_refl)) Hb).
Defined.

Lemma emplaceBack_outside_undo_mode_defined_witness :
  run test_gap (undo_some 6 1 ++ [EmplaceBack 7%Z]) (make adder)
    = Done after_undo_append_6
  /\ 0 < test_gap /\ underUndo after_undo_append_6 = false
  /\ historyCursor after_undo_append_6
     <= length (m_data after_undo_append_6)
  /\ back_of_empty_cache test_gap after_undo_append_6
  /\ emplaceBack test_gap 8%Z after_undo_append_6 = Undefined.
Proof.
  assert (0 < test_gap) as Hg by (unfold test_gap; lia).
  assert (historyCursor after_undo_append_6
          <= length (m_data after_undo_append_6)) as Hle
    by (vm_compute; lia).
  assert (back_of_empty_cache test_gap after_undo_append_6) as Hback.
  { split; [reflexivity|]. split; [discriminate|].
    split; [reflexivity|]. vm_compute. discriminate. }
  split; [vm_compute; reflexivity|]. split; [exact Hg|].
  split; [reflexivity|]. split; [exact Hle|]. split; [exact Hback|].
  exact (proj2 (emplaceBack_outside_undo_mode_defined test_gap 8%Z
                  after_undo_append_6 Hg eq_refl Hle) Hback).
Defined.

Lemma emplaceBack_result_witness :
  emplaceBack test_gap 11%Z ten_layers = Done eleven_layers
  /\ getLast eleven_layers = Done 11%Z
  /\ redo test_gap eleven_layers = (false, eleven_layers).
Proof.
  assert (emplaceBack test_gap 11%Z ten_layers = Done eleven_layers) as Hs'
    by (vm_compute; reflexivity).
  split; [exact Hs'|].
  destruct (emplaceBack_result test_gap 11%Z ten_layers eleven_layers Hs')
    as (Hlast & _ & _ & _ & Hredo & _).
  split; [exact Hlast|exact Hredo].
Defined.

Lemma emplaceBack_outside_undo_mode_adds_witness :
  underUndo ten_layers = false
  /\ emplaceBack test_gap 11%Z ten_layers = Done eleven_layers
  /\ keeps_element (m_function ten_layers)
  /\ m_data eleven_layers = m_data ten_layers ++ [11%Z]
  /\ m_cache ten_layers `prefix_of` m_cache eleven_layers.
Proof.
  assert (emplaceBack test_gap 11%Z ten_layers = Done eleven_layers) as Hs'
    by (vm_compute; reflexivity).
  assert (keeps_element (m_function ten_layers)) as Hf
    by (intros a x; reflexivity).
  split; [reflexivity|]. split; [exact Hs'|]. split; [exact Hf|].
  destruct (emplaceBack_outside_undo_mode_adds test_gap 11%Z ten_layers
              eleven_layers eq_refl Hs') as (_ & Hpre & _ & Hdata).
  split; [exact (Hdata Hf)|exact Hpre].
Defined.

Lemma cursor_moves_keep_containers_witness :
  m_data ten_layers <> []
  /\ Forall cursor_call [@Undo Z; Undo; Redo]
  /\ exists s',
       run test_gap [Undo; Undo; Redo] ten_layers = Done s'
       /\ getUnderlying s' = layers 10.
Proof.
  assert (Forall cursor_call [@Undo Z; Undo; Redo]) as Hcs.
  { constructor; [left; reflexivity|].
    constructor; [left; reflexivity|].
    constructor; [right; reflexivity|]. constructor. }
  assert (m_data ten_layers <> []) as Hne by (vm_compute; discriminate).
  split; [exact Hne|]. split; [exact Hcs|].
  destruct (cursor_moves_keep_containers test_gap _ ten_layers Hne Hcs)
    as (s' & Hrun & Hd & _).
  exists s'. split; [exact Hrun|exact Hd].
Defined.

Lemma undo_after_redo_witness :
  underUndo after_undo_some_6_3 = true
  /\ undo test_gap (redo test_gap after_undo_some_6_3).2
     = Done (true, after_undo_some_6_3).
Proof.
  split; [reflexivity|].
  exact (undo_after_redo test_gap after_undo_some_6_3 eq_refl).
Defined.

Lemma undo_calls_saturate_witness :
  m_data ten_layers <> [] /\ 0 < 12
  /\ exists r,
       defined_calls (undo test_gap) 12 ten_layers = Done r
       /\ r.1 = repeat true 10 ++ repeat false 2
       /\ underUndo r.2 = true.
Proof.
  assert (m_data ten_layers <> []) as Hne by (vm_compute; discriminate).
  assert (0 < 12) as Hk by lia.
  split; [exact Hne|]. split; [exact Hk|].
  destruct (undo_calls_saturate test_gap 12 ten_layers Hne)
    as (r & Hr & Hbs & _ & _ & _ & Hu).
  exists r. split; [exact Hr|]. split; [exact Hbs|exact (Hu Hk)].
Defined.

Lemma reachable_historyCursor_witness :
  0 < test_gap /\ reachable test_gap adder after_undo_some_6_3
  /\ m_data after_undo_some_6_3 <> []
  /\ underUndo after_undo_some_6_3 = true
  /\ historyCursor after_undo_some_6_3
     < length (m_data after_undo_some_6_3).
Proof.
  assert (0 < test_gap) as Hg by (unfold test_gap; lia).
  assert (reachable test_gap adder after_undo_some_6_3) as Hr.
  { exists (undo_some 6 3). vm_compute. reflexivity. }
  assert (m_data after_undo_some_6_3 <> []) as Hne
    by (vm_compute; discriminate).
  split; [exact Hg|]. split; [exact Hr|]. split; [exact Hne|].
  split; [reflexivity|].
  destruct (reachable_historyCursor test_gap adder _ Hg Hr Hne)
    as (_ & _ & Hlt).
  exact (Hlt eq_refl).
Defined.

Lemma reachable_getLast_witness :
  0 < test_gap /\ reachable test_gap adder after_undo_all_redo_all_6
  /\ m_data after_undo_all_redo_all_6 <> []
  /\ 0 < historyCursor after_undo_all_redo_all_6
  /\ exists x, getLast after_undo_all_redo_all_6 = Done x.
Proof.
  assert (0 < test_gap) as Hg by (unfold test_gap; lia).
  assert (reachable test_gap adder after_undo_all_redo_all_6) as Hr.
  { exists (undo_all_redo_all 6). vm_compute. reflexivity. }
  assert (m_data after_undo_all_redo_all_6 <> []) as Hne
    by (vm_compute; discriminate).
  assert (0 < historyCursor after_undo_all_redo_all_6) as Hpos
    by (vm_compute; lia).
  split; [exact Hg|]. split; [exact Hr|]. split; [exact Hne|].
  split; [exact Hpos|].
  destruct (reachable_getLast test_gap adder _ Hg Hr Hne Hpos)
    as (x & Hx & _).
  exists x. exact Hx.
Defined.

Lemma reachable_checkpoint_blocks_witness :
  0 < test_gap /\ reachable test_gap adder after_undo_all_redo_all_6
  /\ m_data after_undo_all_redo_all_6 <> []
  /\ checkpointCursor after_undo_all_redo_all_6 * test_gap
     <= historyCursor after_undo_all_redo_all_6.
Proof.
  assert (0 < test_gap) as Hg by (unfold test_gap; lia).
  assert (reachable test_gap adder after_undo_all_redo_all_6) as Hr.
  { exists (undo_all_redo_all 6). vm_compute. reflexivity. }
  assert (m_data after_undo_all_redo_all_6 <> []) as Hne
    by (vm_compute; discriminate).
  split; [exact Hg|]. split; [exact Hr|]. split; [exact Hne|].
  exact (proj1 (reachable_checkpoint_blocks test_gap adder _ Hg Hr Hne)).
Defined.

Lemma reduceTo_defined_in_bounds_witness :
  m_data ten_layers <> [] /\ in_bounds ten_layers
  /\ is_Done (reduceTo test_gap 0%Z ten_layers).
Proof.
  assert (m_data ten_layers <> []) as Hne by (vm_compute; discriminate).
  assert (in_bounds ten_layers) as Hb by (split; vm_compute; lia).
  split; [exact Hne|]. split; [exact Hb|].
  exact (proj1 (reduceTo_defined_in_bounds test_gap ten_layers Hne Hb) 0%Z).
Defined.

Lemma cursors_in_step_off_block_boundary_witness :
  0 < test_gap /\ length (layers 10) mod test_gap <> 0
  /\ Forall cursor_call [@Undo Z; Undo; Redo]
  /\ exists s,
       run test_gap [Undo; Undo; Redo] ten_layers = Done s
       /\ in_bounds s
       /\ checkpointCursor s = historyCursor s / test_gap.
Proof.
  assert (0 < test_gap) as Hg by (unfold test_gap; lia).
  assert (length (layers 10) mod test_gap <> 0) as Hmod
    by (vm_compute; discriminate).
  assert (Forall cursor_call [@Undo Z; Undo; Redo]) as Hcs.
  { constructor; [left; reflexivity|].
    constructor; [left; reflexivity|].
    constructor; [right; reflexivity|]. constructor. }
  split; [exact Hg|]. split; [exact Hmod|]. split; [exact Hcs|].
  destruct (cursors_in_step_off_block_boundary test_gap adder (layers 10)
              [Undo; Undo; Redo] Hg Hmod Hcs)
    as (s0 & s & Hrun0 & Hrun & Hb & Hcur & _).
  rewrite ten_layers_run in Hrun0. injection Hrun0 as <-.
  exists s. split; [exact Hrun|]. split; [exact Hb|exact Hcur].
Defined.

Lemma reduceTo_off_block_boundary_witness :
  0 < test_gap
  /\ (forall a b c : Z, (a + (b + c) = a + b + c)%Z)
  /\ length (layers 10) mod test_gap <> 0
  /\ Forall cursor_call [@Undo Z; Undo; Redo]
  /\ exists s,
       run test_gap ((EmplaceBack <$> layers 10) ++ [Undo; Undo; Redo])
         (make (combiner Z.add)) = Done s
       /\ reduceTo test_gap 0%Z s
          = Done (foldl Z.add 0%Z (take (historyCursor s) (layers 10)), s).
Proof.
  assert (0 < test_gap) as Hg by (unfold test_gap; lia).
  assert (forall a b c : Z, (a + (b + c) = a + b + c)%Z) as Hassoc
    by (intros; lia).
  assert (length (layers 10) mod test_gap <> 0) as Hmod
    by (vm_compute; discriminate).
  assert (Forall cursor_call [@Undo Z; Undo; Redo]) as Hcs.
  { constructor; [left; reflexivity|].
    constructor; [left; reflexivity|].
    constructor; [right; reflexivity|]. constructor. }
  split; [exact Hg|]. split; [exact Hassoc|]. split; [exact Hmod|].
  split; [exact Hcs|].
  destruct (reduceTo_off_block_boundary test_gap Z.add (layers 10)
              [Undo; Undo; Redo] 0%Z Hg Hassoc Hmod Hcs)
    as (s & Hrun & _ & Hred).
  exists s. split; [exact Hrun|exact Hred].
Defined.

Lemma undo_redo_symmetry_off_block_boundary_witness :
  0 < test_gap /\ length (layers 10) mod test_gap <> 0
  /\ Forall cursor_call [@Undo Z; Undo; Redo]
  /\ exists s,
       run test_gap ((EmplaceBack <$> layers 10) ++ [Undo; Undo; Redo])
         (make adder) = Done s
       /\ (0 < historyCursor s ->
           exists u, undo test_gap s = Done (true, u)
                     /\ (redo test_gap u).2 = s).
Proof.
  assert (0 < test_gap) as Hg by (unfold test_gap; lia).
  assert (length (layers 10) mod test_gap <> 0) as Hmod
    by (vm_compute; discriminate).
  assert (Forall cursor_call [@Undo Z; Undo; Redo]) as Hcs.
  { constructor; [left; reflexivity|].
    constructor; [left; reflexivity|].
    constructor; [right; reflexivity|]. constructor. }
  split; [exact Hg|]. split; [exact Hmod|]. split; [exact Hcs|].
  destruct (undo_redo_symmetry_off_block_boundary test_gap adder
              (layers 10) [Undo; Undo; Redo] Hg Hmod Hcs)
    as (s & Hrun & Hsym).
  exists s. split; [exact Hrun|exact Hsym].
Defined.

Lemma undo_redo_round_trip_witness :
  0 < test_gap /\ length (layers 10) mod test_gap <> 0
  /\ 10 <= length (layers 10)
  /\ run test_gap (repeat Undo 10 ++ repeat Redo 10) ten_layers
     = Done ten_layers.
Proof.
  assert (0 < test_gap) as Hg by (unfold test_gap; lia).
  assert (length (layers 10) mod test_gap <> 0) as Hmod
    by (vm_compute; discriminate).
  assert (10 <= length (layers 10)) as Hk by (vm_compute; lia).
  split; [exact Hg|]. split; [exact Hmod|]. split; [exact Hk|].
  destruct (undo_redo_round_trip test_gap adder (layers 10) 10 Hg Hmod Hk)
    as (s0 & Hrun0 & Hrun).
  rewrite ten_layers_run in Hrun0. injection Hrun0 as <-. exact Hrun.
Defined.

Lemma undo_redo_after_appends_witness :
  0 < test_gap /\ layers 6 <> []
  /\ exists s0 u,
       run test_gap (EmplaceBack <$> layers 6) (make adder) = Done s0
       /\ undo test_gap s0 = Done (true, u)
       /\ redo test_gap u = (false, s0).
Proof.
  assert (0 < test_gap) as Hg by (unfold test_gap; lia).
  assert (layers 6 <> []) as Hl by (vm_compute; discriminate).
  split; [exact Hg|]. split; [exact Hl|].
  destruct (undo_redo_after_appends test_gap adder (layers 6) Hg Hl)
    as (s0 & u & Hrun & Hundo & Hredo).
  exists s0, u. split; [exact Hrun|]. split; [exact Hundo|exact Hredo].
Defined.

Lemma getLastCache_after_appends_witness :
  0 < test_gap /\ test_gap < length (layers 10)
  /\ exists s b,
       run test_gap (EmplaceBack <$> layers 10) (make (combiner Z.add))
         = Done s
       /\ getLastCache s = Done (Some 2)
       /\ deref_cache s (Some 2) = Done (2, b)
       /\ checkpoint_fold Z.add (take 9 (layers 10)) = Some b.
Proof.
  assert (0 < test_gap) as Hg by (unfold test_gap; lia).
  assert (test_gap < length (layers 10)) as Hlt by (vm_compute; lia).
  split; [exact Hg|]. split; [exact Hlt|].
  destruct (getLastCache_after_appends test_gap Z.add (layers 10) Hg)
    as (s & Hrun & _ & Hsome).
  destruct (Hsome Hlt) as (b & Hp & Hderef & Hfold).
  exists s, b. split; [exact Hrun|]. split; [exact Hp|].
  split; [exact Hderef|exact Hfold].
Defined.
